(** * dose-response fuzzing harness ([bin/fuzz.py])

    A shallow embedding of the harness: the surroundings classifier, the
    decision policy, the key mapping, the session loop, the trial
    orchestrator and the batch runner, followed by the properties proved
    about them.

    Python values are modelled as the script uses them: commands, tile kinds
    and key codes are strings, a [dict] is an insertion-ordered association
    list, integers are [Z], exceptions are an error result.  The external
    world (the random generator, the socket, the child processes, the clock)
    is an explicit oracle, and every effect the script performs is appended
    to an event log. *)

From Stdlib Require Import String Ascii List ZArith QArith Lia Bool.
From Stdlib Require Import DecimalString.
Import ListNotations.

#[local] Open Scope string_scope.
#[local] Open Scope Z_scope.

(* ------------------------------------------------------------------ *)
(** ** Python values and exceptions *)

(** The exceptions the script can meet.  [FuelExhausted] is not a Python
    exception: it marks a loop of the model that ran out of fuel, and is
    proved unreachable ([run_game_returns]). *)
Inductive exn : Type :=
| AssertionError
| UnboundLocalError
| IndexError
| KeyError
| OSError
| KeyboardInterrupt
| FuelExhausted.

Inductive result (A : Type) : Type :=
| Ok (a : A)
| Raise (e : exn).

Arguments Ok {A} a.
Arguments Raise {A} e.

Definition rbind {A B} (r : result A) (k : A -> result B) : result B :=
  match r with
  | Ok a => k a
  | Raise e => Raise e
  end.

Declare Scope result_scope.
Delimit Scope result_scope with res.
Notation "x <- r ;; k" := (rbind r (fun x => k))
  (at level 61, r at next level, right associativity) : result_scope.

(** A Python [dict] with string keys: the items in insertion order. *)
Definition dict (V : Type) : Type := list (string * V).

Fixpoint dict_find {V} (k : string) (d : dict V) : option V :=
  match d with
  | [] => None
  | (k', v) :: d' => if String.eqb k k' then Some v else dict_find k d'
  end.

(** [k in d] *)
Definition dict_mem {V} (k : string) (d : dict V) : bool :=
  match dict_find k d with Some _ => true | None => false end.

(** [d[k]], raising [KeyError] on a missing key *)
Definition dict_get {V} (d : dict V) (k : string) : result V :=
  match dict_find k d with Some v => Ok v | None => Raise KeyError end.

Definition dict_keys {V} (d : dict V) : list string := map fst d.

(** [x in seq] for a sequence of strings *)
Definition str_in (x : string) (seq : list string) : bool :=
  existsb (String.eqb x) seq.

(** [seq[i]] on a Python list: a negative index counts from the end, an
    index outside [-len, len) raises [IndexError]. *)
Definition py_index {A} (seq : list A) (i : Z) : result A :=
  let n := Z.of_nat (length seq) in
  let j := if i <? 0 then i + n else i in
  if (0 <=? j) && (j <? n) then
    match nth_error seq (Z.to_nat j) with
    | Some a => Ok a
    | None => Raise IndexError
    end
  else Raise IndexError.

(** [range(n)] *)
Definition range (n : Z) : list Z := map Z.of_nat (seq 0 (Z.to_nat n)).

(** A [for] loop over a list whose body updates the loop-carried state and
    may raise. *)
Fixpoint for_each {S} (xs : list Z) (body : Z -> S -> result S) (s : S)
  : result S :=
  match xs with
  | [] => Ok s
  | x :: xs' => rbind (body x s) (for_each xs' body)
  end.

(* ------------------------------------------------------------------ *)
(** ** Key events *)

Record key : Type := mkKey {
  code : string;
  alt : bool;
  ctrl : bool;
  shift : bool
}.

Definition key_from_code (key_code : string) : key :=
  {| code := key_code; alt := false; ctrl := false; shift := false |}.

(* ------------------------------------------------------------------ *)
(** ** Surroundings classifier *)

(** The decoded reply of the game: [{"width", "height", "cells"}]. *)
Record message : Type := mkMessage {
  width : Z;
  height : Z;
  cells : list string
}.

Definition types : dict string :=
  [ ("@", "player");
    (".", "empty");
    ("#", "wall");
    ("a", "monster");
    ("h", "monster");
    ("D", "monster");
    ("S", "monster");
    ("v", "monster");
    ("%", "food");
    ("i", "dose");
    ("I", "dose");
    ("+", "dose");
    ("x", "dose") ].

Definition cell_type (cell : string) : string :=
  if dict_mem cell types then
    match dict_find cell types with Some t => t | None => "unknown" end
  else "unknown".

Arguments cell_type : simpl never.

Definition get_cell (m : message) (x y : Z) : result string :=
  py_index (cells m) (y * width m + x).

(** The two nested [for] loops that look for the player; the loop-carried
    state is the pair [player_x, player_y], unbound ([None]) until the first
    player cell is met and overwritten by every later one. *)
Definition find_player (m : message) : result (option (Z * Z)) :=
  for_each (range (width m))
    (fun x player =>
       for_each (range (height m))
         (fun y player =>
            (cell <- get_cell m x y ;;
             if String.eqb (cell_type cell) "player"
             then Ok (Some (x, y))
             else Ok player)%res)
         player)
    None.

(** The function from [x, y = player_x, player_y] on: the [result] literal,
    its values computed in the order written. *)
Definition around (m : message) (x y : Z) : result (dict string) :=
  (nw <- get_cell m (x - 1) (y - 1) ;;
   n  <- get_cell m x (y - 1) ;;
   ne <- get_cell m (x + 1) (y - 1) ;;
   w  <- get_cell m (x - 1) y ;;
   e  <- get_cell m (x + 1) y ;;
   sw <- get_cell m (x - 1) (y + 1) ;;
   s  <- get_cell m x (y + 1) ;;
   se <- get_cell m (x + 1) (y + 1) ;;
   Ok [ ("NW", cell_type nw);
        ("N",  cell_type n);
        ("NE", cell_type ne);
        ("W",  cell_type w);
        ("E",  cell_type e);
        ("SW", cell_type sw);
        ("S",  cell_type s);
        ("SE", cell_type se) ])%res.

Definition surroundings_from_message (m : message) : result (dict string) :=
  (if negb (Z.of_nat (length (cells m)) =? width m * height m)
   then Raise AssertionError
   else
     player <- find_player m ;;
     match player with
     | None => Raise UnboundLocalError
     | Some (x, y) => around m x y
     end)%res.

(* ------------------------------------------------------------------ *)
(** ** The world: random generator and event log *)

(** The state of Python's global random generator: an endless tape of raw
    draws and the position of the next one.  Every primitive draw
    ([random.random()], or the index drawn inside [random.choice] and
    [random.randint]) reads one tape entry and advances. *)
Record rng : Type := mkRng {
  tape : nat -> N;
  cursor : nat
}.

Definition raw (g : rng) : N := tape g (cursor g).

Definition advance (g : rng) : rng :=
  {| tape := tape g; cursor := S (cursor g) |}.

(** What the script does to the outside, in order. *)
Inductive event : Type :=
| Print (line : string)
| Connect (endpoint : string)
| Send (k : key)
| Recv
| Sleep (milliseconds : Z)
| SocketClose
| ContextTerm
| Call (argv : list string)
| Popen (argv : list string)
| TempFile (name : string)
| Kill
| Wait
| Unlink (path : string)
| Mkdir (path : string)
| CopyFile (src dst : string).

Record world : Type := mkWorld {
  gen : rng;
  log : list event
}.

(** Computations that read and update the world and may raise. *)
Definition M (A : Type) : Type := world -> result A * world.

Definition ret {A} (a : A) : M A := fun w => (Ok a, w).

Definition raise {A} (e : exn) : M A := fun w => (Raise e, w).

Definition bind {A B} (m : M A) (k : A -> M B) : M B :=
  fun w =>
    match m w with
    | (Ok a, w') => k a w'
    | (Raise e, w') => (Raise e, w')
    end.

Definition lift {A} (r : result A) : M A := fun w => (r, w).

Definition emit (e : event) : M unit :=
  fun w => (Ok tt, {| gen := gen w; log := log w ++ [e] |}).

Declare Scope io_scope.
Delimit Scope io_scope with io.
Notation "x <- m ;; k" := (bind m (fun x => k))
  (at level 61, m at next level, right associativity) : io_scope.
Notation "m ;;; k" := (bind m (fun _ => k))
  (at level 61, right associativity) : io_scope.

(** One raw draw. *)
Definition draw : M N :=
  fun w => (Ok (raw (gen w)), {| gen := advance (gen w); log := log w |}).

(** The index below [n] that [random.choice] and [random.randint] draw. *)
Definition randbelow (n : nat) : M nat :=
  (c <- draw ;; ret (N.to_nat (c mod N.of_nat n)))%io.

(** [random.random()]: a multiple of 2^-53 in [0, 1). *)
Definition random : M Q :=
  (c <- draw ;; ret (Qmake (Z.of_N (c mod 2 ^ 53)) (2 ^ 53)))%io.

(** [random.choice(seq)]: [seq[randbelow(len(seq))]], [IndexError] on an
    empty sequence. *)
Definition choice {A} (seq : list A) : M A :=
  match seq with
  | [] => raise IndexError
  | _ :: _ =>
      (i <- randbelow (length seq) ;;
       lift (py_index seq (Z.of_nat i)))%io
  end.

(** [random.randint(a, b)]: [a + randbelow(b - a + 1)], both ends included. *)
Definition randint (a b : Z) : M Z :=
  (i <- randbelow (Z.to_nat (b - a + 1)) ;; ret (a + Z.of_nat i))%io.

(* ------------------------------------------------------------------ *)
(** ** Decision policy *)

(** ['NW N NE W E SW S SE'.split()] *)
Definition directions : list string :=
  ["NW"; "N"; "NE"; "W"; "E"; "SW"; "S"; "SE"].

Definition adjacent_directions : dict (list string) :=
  [ ("NW", ["N"; "W"]);
    ("N",  ["NE"; "NW"]);
    ("NE", ["N"; "E"]);
    ("W",  ["NW"; "SW"]);
    ("E",  ["NE"; "SE"]);
    ("SW", ["S"; "W"]);
    ("S",  ["SE"; "SW"]);
    ("SE", ["S"; "E"]) ].

(** [[direction for direction, tile in display.items() if keep(tile)]] *)
Definition directions_where (keep : string -> bool) (display : dict string)
  : list string :=
  map fst (filter (fun item => keep (snd item)) display).

(** [tile in ('empty', 'monster')] *)
Definition walkable (tile : string) : bool := str_in tile ["empty"; "monster"].

(** A list comprehension whose condition may raise. *)
Fixpoint filter_res {A} (keep : A -> result bool) (l : list A)
  : result (list A) :=
  match l with
  | [] => Ok []
  | a :: l' =>
      (b <- keep a ;;
       rest <- filter_res keep l' ;;
       Ok (if b then a :: rest else rest))%res
  end.

(** Iterating over a [dict] yields its keys. *)
Definition preferred_directions (display : dict string)
  : result (list string) :=
  filter_res
    (fun direction =>
       (tile <- dict_get display direction ;; Ok (walkable tile))%res)
    (dict_keys adjacent_directions).

(** The last two steps of the policy, reached from three places. *)
Definition wander (display : dict string) : M string :=
  let walkable_directions := directions_where walkable display in
  match walkable_directions with
  | _ :: _ => choice walkable_directions
  | [] => choice directions
  end.

(** The function after its first test, where [display] is a non-empty
    [dict] and [previous_command] a non-empty string. *)
Definition forage (previous_command : string) (display : dict string)
  : M string :=
  let food_directions :=
    directions_where (fun tile => String.eqb tile "food") display in
  match food_directions with
  | _ :: _ => choice food_directions
  | [] =>
      let dose_directions :=
        directions_where (fun tile => String.eqb tile "dose") display in
      match dose_directions with
      | _ :: _ => choice dose_directions
      | [] =>
          if str_in previous_command directions then
            (u <- random ;;
             if Qle_bool u (3 # 4) then
               tile <- lift (dict_get display previous_command) ;;
               if walkable tile then ret previous_command
               else
                 preferred <- lift (preferred_directions display) ;;
                 match preferred with
                 | _ :: _ => choice preferred
                 | [] => wander display
                 end
             else wander display)%io
          else wander display
      end
  end.

(** [display] and [previous_command] are [None] or a value; an empty [dict]
    and an empty string are false like [None]. *)
Definition next_command (previous_command : option string)
    (display : option (dict string)) : M string :=
  match display, previous_command with
  | Some ((_ :: _) as display), Some ((String _ _) as previous_command) =>
      forage previous_command display
  | _, _ => choice directions
  end.

(* ------------------------------------------------------------------ *)
(** ** Action to key event *)

Definition mapping : dict string :=
  [ ("NW", "NumPad7");
    ("N",  "Up");
    ("NE", "NumPad9");
    ("W",  "Left");
    ("E",  "Right");
    ("SW", "NumPad1");
    ("S",  "Down");
    ("SE", "NumPad3");
    ("Eat", "D1");
    ("Quit", "Q") ].

Definition key_from_command (command : string) : result key :=
  (key_code <- dict_get mapping command ;; Ok (key_from_code key_code))%res.

(* ------------------------------------------------------------------ *)
(** ** Session driver *)

(** [str(n)] for an integer *)
Definition str_of_int (n : Z) : string := NilZero.string_of_int (Z.to_int n).

(** What the socket does at each turn of a session: whether the first
    [zmq.select] reports it writable, and the reply that is read and decoded
    within the 3 second timeout of the second one ([None]: timed out). *)
Record socket_env : Type := mkSocket {
  writable : Z -> bool;
  readable : Z -> option message
}.

(** The [while True] loop; [turns], [previous_command] and [display] are
    its variables. *)
Fixpoint game_loop (fuel : nat) (net : socket_env) (max_turns turns : Z)
    (previous_command : option string) (display : option (dict string))
  : M unit :=
  match fuel with
  | O => raise FuelExhausted
  | S fuel' =>
      let turns := turns + 1 in
      (command <- (if turns >? max_turns then ret "Quit"
                   else next_command previous_command display) ;;
       key <- lift (key_from_command command) ;;
       let previous_command := Some command in
       if writable net turns then
         emit (Send key) ;;;
         if String.eqb command "Quit" then ret tt
         else
           match readable net turns with
           | Some message =>
               emit Recv ;;;
               display <- lift (surroundings_from_message message) ;;
               emit (Sleep 300) ;;;
               game_loop fuel' net max_turns turns previous_command
                 (Some display)
           | None => emit (Print "ERROR: Timed out waiting for a response")
           end
       else emit (Print "ERROR: no writable sockets available"))%io
  end.

(** [200 + random.randint(10, 200)] *)
Definition draw_max_turns : M Z :=
  (r <- randint 10 200 ;; ret (200 + r))%io.

Definition run_game (net : socket_env) : M unit :=
  (emit (Print "Connecting to the game...") ;;;
   emit (Connect "ipc:///tmp/dose-response.ipc") ;;;
   emit (Print "... connected.") ;;;
   max_turns <- draw_max_turns ;;
   game_loop (S (Z.to_nat max_turns)) net max_turns 0 None None ;;;
   emit (Print "Closing the connection") ;;;
   emit SocketClose ;;;
   emit ContextTerm)%io.

(* ------------------------------------------------------------------ *)
(** ** Trial orchestrator *)

(** What the outside answers during one trial.  Starting [cargo] at all may
    fail, and so may the file operations of the replay phase: [os.mkdir] is
    not recursive and raises when [./replays] is missing (or [bugs] exists
    and is not a directory), [shutil.copyfile] and [os.unlink] raise when
    the file or the rights are missing.  Creating the temporary file and
    starting, polling, killing and awaiting the child processes are taken to
    succeed. *)
Record trial_env : Type := mkTrial {
  cargo_found : bool;            (* [false]: starting [cargo] raises OSError *)
  build_rc : Z;                  (* [subprocess.call(['cargo', 'build', ...])] *)
  replay_file_name : string;     (* [replay_file.name] *)
  game_poll_early : option Z;    (* [game.poll()] one second after the launch *)
  game_stdout : string;
  game_stderr : string;
  net : socket_env;
  game_poll_late : option Z;     (* [game.poll()] one second after the session *)
  replay_rc : Z;                 (* [game.wait()] of the replay *)
  replay_stdout : string;
  replay_stderr : string;
  target_isdir : bool;           (* [os.path.isdir(target_dir)] *)
  mkdir_ok : bool;               (* [false]: [os.mkdir(target_dir)] raises *)
  copyfile_ok : bool;            (* [false]: [shutil.copyfile] raises *)
  unlink_ok : bool;              (* [false]: [os.unlink] raises *)
  now : string                   (* [now.strftime('%Y-%m-%dT%H-%M-%S')] *)
}.

(** [os.path.join] on relative parts *)
Definition path_join (a b : string) : string := a ++ "/" ++ b.

Definition game_command (replay_file : string) : list string :=
  ["cargo"; "run"; "--features=remote"; "--";
   "--remote"; "--exit-after"; "--invincible";
   "--replay-file"; replay_file].

Definition replay_command (replay_file : string) : list string :=
  ["cargo"; "run"; "--features=remote"; "--";
   "--remote"; "--exit-after"; "--invincible";
   replay_file].

(** A call to the operating system that performs its effect, or raises
    [OSError] (or one of its subclasses) and has no effect. *)
Definition os_call (ok : bool) (effect : event) : M unit :=
  if ok then emit effect else raise OSError.

(** The second half of [test_run], from [replay_command] on. *)
Definition replay_phase (env : trial_env) : M string :=
  (emit (Popen (replay_command (replay_file_name env))) ;;;
   emit Wait ;;;
   let rc := replay_rc env in
   if rc =? 0 then
     emit (Print "Replay finished successfully. No need to store it.") ;;;
     os_call (unlink_ok env) (Unlink (replay_file_name env)) ;;;
     ret "SUCCESS"
   else
     emit (Print ("Return code: " ++ str_of_int rc)) ;;;
     emit (Print ("stdout: " ++ replay_stdout env)) ;;;
     emit (Print ("stderr: " ++ replay_stderr env)) ;;;
     let target_dir := path_join (path_join "." "replays") "bugs" in
     let bug_path := path_join target_dir (now env) in
     emit (Print ("Recording crash to: " ++ bug_path)) ;;;
     (if negb (target_isdir env)
      then os_call (mkdir_ok env) (Mkdir target_dir)
      else ret tt) ;;;
     os_call (copyfile_ok env) (CopyFile (replay_file_name env) bug_path) ;;;
     os_call (unlink_ok env) (Unlink (replay_file_name env)) ;;;
     ret "FAILURE")%io.

(** The middle of [test_run], from "The game ended" to the replay. *)
Definition after_session (env : trial_env) : M string :=
  (emit (Print "The game ended, getting its status") ;;;
   emit (Sleep 1000) ;;;
   match game_poll_late env with
   | None => emit Kill ;;; replay_phase env
   | Some rc =>
       if rc =? 0 then
         emit (Print "Starting the replay") ;;;
         replay_phase env
       else
         emit (Print ("Dose response finished with return code: "
                      ++ str_of_int rc)) ;;;
         emit (Print ("stdout: " ++ game_stdout env)) ;;;
         emit (Print ("stderr: " ++ game_stderr env)) ;;;
         ret "UNEXPECTED"
   end)%io.

Definition test_run (env : trial_env) : M string :=
  (emit (Print "Building dose-response") ;;;
   (if cargo_found env then ret tt else raise OSError) ;;;
   emit (Call ["cargo"; "build"; "--features=remote"]) ;;;
   if negb (build_rc env =? 0) then
     emit (Print "Error building dose-response") ;;;
     ret "UNEXPECTED"
   else
     emit (TempFile (replay_file_name env)) ;;;
     emit (Print ("Running the game with a replay destination: "
                  ++ replay_file_name env)) ;;;
     emit (Popen (game_command (replay_file_name env))) ;;;
     emit (Sleep 1000) ;;;
     match game_poll_early env with
     | None =>
         emit (Print "Sending commands") ;;;
         run_game (net env) ;;;
         after_session env
     | Some _ =>
         emit (Print "ERROR: game ended prematurely.") ;;;
         emit (Print ("stdout: " ++ game_stdout env)) ;;;
         emit (Print ("stderr: " ++ game_stderr env)) ;;;
         ret "UNEXPECTED"
     end)%io.

(* ------------------------------------------------------------------ *)
(** ** Batch runner ([__main__]) *)

(** The trials' environments, and whether the user interrupts trial [i]
    (SIGINT during the [i]-th pass of the loop; [main] only sees that
    [KeyboardInterrupt] comes out of it instead of a result). *)
Record batch_env : Type := mkBatch {
  trial : Z -> trial_env;
  sigint : Z -> bool
}.

Fixpoint dict_set {V} (d : dict V) (k : string) (v : V) : dict V :=
  match d with
  | [] => [(k, v)]
  | (k', v') :: d' =>
      if String.eqb k k' then (k', v) :: d' else (k', v') :: dict_set d' k v
  end.

(** The [for] loop of the [try] block.  [results] is mutated in place, so
    it is returned with the exception that ends the loop early, and so is
    the loop variable [i]. *)
Fixpoint run_tests (env : batch_env) (indices : list Z) (results : dict Z)
    (last : option Z) (w : world)
  : result unit * dict Z * option Z * world :=
  match indices with
  | [] => (Ok tt, results, last, w)
  | i :: rest =>
      let body :=
        (emit (Print ("Running test number " ++ str_of_int (i + 1))) ;;;
         result <- (if sigint env i then raise KeyboardInterrupt
                    else test_run (trial env i)) ;;
         count <- lift (dict_get results result) ;;
         ret (dict_set results result (count + 1)))%io in
      match body w with
      | (Ok results', w') => run_tests env rest results' (Some i) w'
      | (Raise e, w') => (Raise e, results, Some i, w')
      end
  end.

(** The line feed, and [str(results)]. *)
Definition nl : string := String (ascii_of_nat 10) "".

Definition show_results (results : dict Z) : string :=
  "{" ++ String.concat ", "
           (map (fun item => "'" ++ fst item ++ "': " ++ str_of_int (snd item))
                results)
      ++ "}".

(** The script from [results = ...] on, for a parsed [test_count]; the
    value is the exit status of the process.  An exception other than
    [KeyboardInterrupt] is not caught: the interpreter prints the traceback
    and exits with status 1. *)
Definition main (test_count : Z) (env : batch_env) (w : world) : Z * world :=
  let results := [("SUCCESS", 0); ("FAILURE", 0); ("UNEXPECTED", 0)] in
  let report (results : dict Z) : M Z :=
    (emit (Print ("Results:" ++ nl ++ show_results results)) ;;;
     success <- lift (dict_get results "SUCCESS") ;;
     ret (if success =? test_count then 0 else 1))%io in
  let '(r, results, i, w) :=
    run_tests env (range test_count) results None w in
  let finish : M Z :=
    match r with
    | Ok _ =>
        (emit (Print (nl ++ nl ++ "All " ++ str_of_int test_count
                      ++ " tests finished.")) ;;;
         report results)%io
    | Raise KeyboardInterrupt =>
        (emit (Print (nl ++ nl
                      ++ str_of_int (match i with Some i => i | None => 0 end)
                      ++ " out of " ++ str_of_int test_count
                      ++ " tests finished.")) ;;;
         report results)%io
    | Raise e => raise e
    end in
  match finish w with
  | (Ok return_code, w') => (return_code, w')
  | (Raise _, w') => (1, w')
  end.

(* ------------------------------------------------------------------ *)
(** * Vocabulary of the properties *)

(** ** Snapshots *)

(** The seven tile kinds. *)
Definition tile_kinds : list string :=
  ["player"; "empty"; "wall"; "monster"; "food"; "dose"; "unknown"].

(** The cell at column [x], row [y] holds the player. *)
Definition is_player (m : message) (x y : Z) : bool :=
  match get_cell m x y with
  | Ok cell => String.eqb (cell_type cell) "player"
  | Raise _ => false
  end.

(** The number of player cells of a snapshot. *)
Definition count_players (m : message) : nat :=
  length (filter (fun cell => String.eqb (cell_type cell) "player") (cells m)).

(** The body of the inner loop and of the outer loop of [find_player]. *)
Definition look (m : message) (x y : Z) (player : option (Z * Z))
  : result (option (Z * Z)) :=
  (cell <- get_cell m x y ;;
   if String.eqb (cell_type cell) "player" then Ok (Some (x, y))
   else Ok player)%res.

Definition look_column (m : message) (x : Z) (player : option (Z * Z))
  : result (option (Z * Z)) :=
  for_each (range (height m)) (look m x) player.

(** A snapshot with the player in the middle, and one with two players. *)
Definition one_player : message :=
  {| width := 4; height := 3;
     cells := [ "#"; "%"; "."; "#";
                "a"; "@"; "x"; "#";
                "#"; "?"; "."; "#" ] |}.

Definition two_players : message :=
  {| width := 5; height := 3;
     cells := [ "#"; "#"; "#"; "#"; "#";
                "#"; "@"; "."; "@"; "#";
                "#"; "#"; "#"; "%"; "#" ] |}.

(** A snapshot without a player. *)
Definition no_player : message :=
  {| width := 3; height := 3;
     cells := [ "#"; "#"; "#";
                "#"; "."; "#";
                "#"; "#"; "#" ] |}.

(** ** Draws, actions and Surroundings *)

(** The world after one raw draw, and the index that a draw below [n]
    yields in a given world. *)
Definition step (w : world) : world :=
  {| gen := advance (gen w); log := log w |}.

Definition pick (n : nat) (w : world) : nat :=
  N.to_nat (raw (gen w) mod N.of_nat n).

(** A generator whose tape is the given list, followed by zeros. *)
Definition tape_of (draws : list N) : rng :=
  {| tape := fun i => nth i draws 0%N; cursor := 0 |}.

Definition world_of (draws : list N) : world :=
  {| gen := tape_of draws; log := [] |}.

(** The ten actions. *)
Definition actions : list string :=
  ["N"; "NE"; "E"; "SE"; "S"; "SW"; "W"; "NW"; "Eat"; "Quit"].

(** A Surroundings: a [dict] whose keys are the eight directions, each
    once, in any order. *)
Definition is_surroundings (display : dict string) : Prop :=
  NoDup (dict_keys display) /\
  forall k, In k (dict_keys display) <-> In k directions.

(** The tile of a direction is food. *)
Definition is_food (display : dict string) (direction : string) : bool :=
  match dict_find direction display with
  | Some tile => String.eqb tile "food"
  | None => false
  end.

(** The Surroundings of the player of [one_player]: food to the north. *)
Definition food_north : dict string :=
  [ ("NW", "wall"); ("N", "food"); ("NE", "empty");
    ("W", "monster"); ("E", "dose");
    ("SW", "wall"); ("S", "unknown"); ("SE", "empty") ].

(** The previous direction is blocked, one adjacent direction (NE) is free
    and so is the opposite one (S). *)
Definition north_blocked : dict string :=
  [ ("NW", "wall"); ("N", "wall"); ("NE", "empty");
    ("W", "wall"); ("E", "wall");
    ("SW", "wall"); ("S", "empty"); ("SE", "wall") ].

(** ** Sessions *)

(** The world with more events logged. *)
Definition after (w : world) (events : list event) : world :=
  {| gen := gen w; log := (log w ++ events)%list |}.

Definition timed_out : event :=
  Print "ERROR: Timed out waiting for a response".

Definition not_writable : event :=
  Print "ERROR: no writable sockets available".

(** The events of a session that starts after [turns] turns, and its
    outcome, as the socket [net] and the turn limit allow them. *)
Inductive session_trace (net : socket_env) (max_turns : Z)
  : Z -> list event -> result unit -> Prop :=
| st_quit (turns : Z) :
    turns + 1 > max_turns ->
    writable net (turns + 1) = true ->
    session_trace net max_turns turns [Send (key_from_code "Q")] (Ok tt)
| st_not_writable (turns : Z) :
    writable net (turns + 1) = false ->
    session_trace net max_turns turns [not_writable] (Ok tt)
| st_timed_out (turns : Z) (c : string) (k : key) :
    turns + 1 <= max_turns ->
    In c directions -> key_from_command c = Ok k ->
    writable net (turns + 1) = true ->
    readable net (turns + 1) = None ->
    session_trace net max_turns turns [Send k; timed_out] (Ok tt)
| st_bad_reply (turns : Z) (c : string) (k : key) (reply : message) (e : exn) :
    turns + 1 <= max_turns ->
    In c directions -> key_from_command c = Ok k ->
    writable net (turns + 1) = true ->
    readable net (turns + 1) = Some reply ->
    surroundings_from_message reply = Raise e ->
    session_trace net max_turns turns [Send k; Recv] (Raise e)
| st_turn (turns : Z) (c : string) (k : key) (reply : message)
    (d : dict string) (rest : list event) (r : result unit) :
    turns + 1 <= max_turns ->
    In c directions -> key_from_command c = Ok k ->
    writable net (turns + 1) = true ->
    readable net (turns + 1) = Some reply ->
    surroundings_from_message reply = Ok d ->
    session_trace net max_turns (turns + 1) rest r ->
    session_trace net max_turns turns (Send k :: Recv :: Sleep 300 :: rest) r.

Definition session_opening : list event :=
  [Print "Connecting to the game..."; Connect "ipc:///tmp/dose-response.ipc";
   Print "... connected."].

Definition session_closing : list event :=
  [Print "Closing the connection"; SocketClose; ContextTerm].

(** The keys sent, in order. *)
Fixpoint sent (events : list event) : list key :=
  match events with
  | [] => []
  | Send k :: rest => k :: sent rest
  | _ :: rest => sent rest
  end.

(** What a session may log. *)
Definition session_event (e : event) : Prop :=
  match e with
  | Send _ | Recv | Sleep _ | Print _ => True
  | _ => False
  end.

(** ** Trials *)

(** The verdict and the events of the replay phase. *)
Definition replay_verdict (env : trial_env) : string :=
  if replay_rc env =? 0 then "SUCCESS" else "FAILURE".

Definition bug_path (env : trial_env) : string :=
  "./replays/bugs/" ++ now env.

(** The archive directory is there, or can be made. *)
Definition archive_dir_ok (env : trial_env) : bool :=
  target_isdir env || mkdir_ok env.

(** The file operations that the replay phase attempts all succeed. *)
Definition files_ok (env : trial_env) : bool :=
  if replay_rc env =? 0 then unlink_ok env
  else archive_dir_ok env && copyfile_ok env && unlink_ok env.

(** What the replay phase gives: its verdict, or the [OSError] of the first
    file operation that fails. *)
Definition replay_result (env : trial_env) : result string :=
  if files_ok env then Ok (replay_verdict env) else Raise OSError.

(** The file operations of the failure branch that take effect: they stop
    at the first that fails. *)
Definition archive_events (env : trial_env) : list event :=
  if archive_dir_ok env then
    ((if target_isdir env then [] else [Mkdir "./replays/bugs"])
     ++ (if copyfile_ok env then
           CopyFile (replay_file_name env) (bug_path env)
           :: (if unlink_ok env then [Unlink (replay_file_name env)] else [])
         else []))%list
  else [].

Definition replay_events (env : trial_env) : list event :=
  if replay_rc env =? 0 then
    ([ Popen (replay_command (replay_file_name env)); Wait;
       Print "Replay finished successfully. No need to store it." ]
     ++ (if unlink_ok env then [Unlink (replay_file_name env)] else []))%list
  else
    ([ Popen (replay_command (replay_file_name env)); Wait;
       Print ("Return code: " ++ str_of_int (replay_rc env));
       Print ("stdout: " ++ replay_stdout env);
       Print ("stderr: " ++ replay_stderr env);
       Print ("Recording crash to: " ++ bug_path env) ]
     ++ archive_events env)%list.

(** What the part after the session logs before the replay phase, or in
    place of it. *)
Definition status_events (env : trial_env) : list event :=
  [Print "The game ended, getting its status"; Sleep 1000] ++
  match game_poll_late env with
  | None => [Kill]
  | Some rc =>
      if rc =? 0 then [Print "Starting the replay"]
      else [ Print ("Dose response finished with return code: "
                    ++ str_of_int rc);
             Print ("stdout: " ++ game_stdout env);
             Print ("stderr: " ++ game_stderr env) ]
  end.

(** The recorded game has exited with a failure status by the time it is
    polled after the session. *)
Definition game_failed (env : trial_env) : bool :=
  match game_poll_late env with
  | None => false
  | Some rc => negb (rc =? 0)
  end.

Definition build_events : list event :=
  [Print "Building dose-response"; Call ["cargo"; "build"; "--features=remote"]].

Definition launch_events (env : trial_env) : list event :=
  [ TempFile (replay_file_name env);
    Print ("Running the game with a replay destination: "
           ++ replay_file_name env);
    Popen (game_command (replay_file_name env));
    Sleep 1000 ].

Definition premature_events (env : trial_env) : list event :=
  [ Print "ERROR: game ended prematurely.";
    Print ("stdout: " ++ game_stdout env);
    Print ("stderr: " ++ game_stderr env) ].

(** The events of a trial and its outcome, branch by branch. *)
Definition session_prefix (env : trial_env) : list event :=
  (build_events ++ launch_events env ++ [Print "Sending commands"]
   ++ session_opening)%list.

Inductive trial_trace (env : trial_env) (max_turns : Z)
  : list event -> result string -> Prop :=
| tt_no_cargo :
    cargo_found env = false ->
    trial_trace env max_turns [Print "Building dose-response"] (Raise OSError)
| tt_build_failed :
    cargo_found env = true -> build_rc env <> 0 ->
    trial_trace env max_turns
      (build_events ++ [Print "Error building dose-response"])
      (Ok "UNEXPECTED")
| tt_premature (rc : Z) :
    cargo_found env = true -> build_rc env = 0 ->
    game_poll_early env = Some rc ->
    trial_trace env max_turns
      (build_events ++ launch_events env ++ premature_events env)
      (Ok "UNEXPECTED")
| tt_session_raised (session : list event) (e : exn) :
    cargo_found env = true -> build_rc env = 0 ->
    game_poll_early env = None ->
    session_trace (net env) max_turns 0 session (Raise e) ->
    trial_trace env max_turns (session_prefix env ++ session) (Raise e)
| tt_game_failed (session : list event) :
    cargo_found env = true -> build_rc env = 0 ->
    game_poll_early env = None ->
    session_trace (net env) max_turns 0 session (Ok tt) ->
    game_failed env = true ->
    trial_trace env max_turns
      (session_prefix env ++ session ++ session_closing ++ status_events env)
      (Ok "UNEXPECTED")
| tt_replayed (session : list event) :
    cargo_found env = true -> build_rc env = 0 ->
    game_poll_early env = None ->
    session_trace (net env) max_turns 0 session (Ok tt) ->
    game_failed env = false ->
    trial_trace env max_turns
      (session_prefix env ++ session ++ session_closing ++ status_events env
       ++ replay_events env)
      (replay_result env).

(** Events of the orchestrator outside the session and the replay phase:
    no key is sent, no timeout is reported, the replay is not started and
    nothing is archived. *)
Definition quiet (env : trial_env) (e : event) : Prop :=
  e <> timed_out /\
  e <> Popen (replay_command (replay_file_name env)) /\
  (forall src dst, e <> CopyFile src dst) /\
  (forall k, e <> Send k).

(** A game that never answers, and whose replay succeeds. *)
Definition silent_game : trial_env :=
  {| cargo_found := true;
     build_rc := 0;
     replay_file_name := "/tmp/tmpq3x";
     game_poll_early := None;
     game_stdout := "";
     game_stderr := "";
     net := {| writable := fun _ => true; readable := fun _ => None |};
     game_poll_late := None;
     replay_rc := 0;
     replay_stdout := "";
     replay_stderr := "";
     target_isdir := true;
     mkdir_ok := true;
     copyfile_ok := true;
     unlink_ok := true;
     now := "2017-03-04T10-00-00" |}.

Definition silent_events : list event :=
  [ Print "Building dose-response";
    Call ["cargo"; "build"; "--features=remote"];
    TempFile "/tmp/tmpq3x";
    Print "Running the game with a replay destination: /tmp/tmpq3x";
    Popen (game_command "/tmp/tmpq3x");
    Sleep 1000;
    Print "Sending commands";
    Print "Connecting to the game...";
    Connect "ipc:///tmp/dose-response.ipc";
    Print "... connected.";
    Send (key_from_code "NumPad7");
    timed_out;
    Print "Closing the connection";
    SocketClose;
    ContextTerm;
    Print "The game ended, getting its status";
    Sleep 1000;
    Kill;
    Popen (replay_command "/tmp/tmpq3x");
    Wait;
    Print "Replay finished successfully. No need to store it.";
    Unlink "/tmp/tmpq3x" ].

(** A game that plays one turn and then stops answering, and whose replay
    fails. *)
Definition diverging_game : trial_env :=
  {| cargo_found := true;
     build_rc := 0;
     replay_file_name := "/tmp/tmpq3x";
     game_poll_early := None;
     game_stdout := "";
     game_stderr := "";
     net := {| writable := fun _ => true;
               readable := fun t => if t =? 1 then Some one_player else None |};
     game_poll_late := Some 0;
     replay_rc := 101;
     replay_stdout := "";
     replay_stderr := "panicked";
     target_isdir := false;
     mkdir_ok := true;
     copyfile_ok := true;
     unlink_ok := true;
     now := "2017-03-04T10-00-00" |}.

(** A game that never answers, killed after the session; its replay fails
    and [./replays] is missing, so the archive directory cannot be made. *)
Definition unarchived_game : trial_env :=
  {| cargo_found := true;
     build_rc := 0;
     replay_file_name := "/tmp/tmpq3x";
     game_poll_early := None;
     game_stdout := "";
     game_stderr := "";
     net := {| writable := fun _ => true; readable := fun _ => None |};
     game_poll_late := None;
     replay_rc := 101;
     replay_stdout := "";
     replay_stderr := "panicked";
     target_isdir := false;
     mkdir_ok := false;
     copyfile_ok := true;
     unlink_ok := true;
     now := "2017-03-04T10-00-00" |}.


(** ** Batches *)

(** The start of one pass of the batch loop: the trial, or the interrupt. *)
Definition started (env : batch_env) (i : Z) : M string :=
  (emit (Print ("Running test number " ++ str_of_int (i + 1))) ;;;
   if sigint env i then raise KeyboardInterrupt
   else test_run (trial env i))%io.

(** The outcomes of the trials of a batch, in order, up to and including
    the first one that raises. *)
Fixpoint outcomes (env : batch_env) (indices : list Z) (w : world)
  : list (result string) :=
  match indices with
  | [] => []
  | i :: rest =>
      match started env i w with
      | (Ok outcome, w') => Ok outcome :: outcomes env rest w'
      | (Raise e, _) => [Raise e]
      end
  end.

Definition is_success (outcome : result string) : bool :=
  match outcome with
  | Ok verdict => String.eqb verdict "SUCCESS"
  | Raise _ => false
  end.

Definition successes (outs : list (result string)) : nat :=
  length (filter is_success outs).

(** Five trials are requested and the user interrupts the second. *)
Definition interrupted_batch : batch_env :=
  {| trial := fun _ => silent_game;
     sigint := fun i => i =? 1 |}.

(** Three successful trials, and a batch with one failure among them. *)
Definition mixed_batch : batch_env :=
  {| trial := fun i => if i =? 1 then diverging_game else silent_game;
     sigint := fun _ => false |}.

(** ** Further vocabulary *)

(** The tile of a direction is of the given kind. *)
Definition has_tile (kind : string) (display : dict string)
    (direction : string) : bool :=
  match dict_find direction display with
  | Some tile => String.eqb tile kind
  | None => false
  end.

(** No tile of the display is of the given kind. *)
Definition no_tile (kind : string) (display : dict string) : Prop :=
  ~ In kind (map snd display).

(** The draw of [random.random()] in this world is at most 0.75: the raw
    53 bits are at most [3 * 2^51]. *)
Definition momentum (w : world) : bool :=
  (raw (gen w) mod 2 ^ 53 <=? 3 * 2 ^ 51)%N.

(** The tile of a direction can be walked on. *)
Definition walkable_at (display : dict string) (direction : string) : bool :=
  match dict_find direction display with
  | Some tile => walkable tile
  | None => false
  end.

(** Doses to the east and the south-west, no food; and walls all around. *)
Definition dose_east : dict string :=
  [ ("NW", "wall"); ("N", "empty"); ("NE", "wall");
    ("W", "wall"); ("E", "dose");
    ("SW", "dose"); ("S", "wall"); ("SE", "wall") ].

Definition walled_in : dict string :=
  [ ("NW", "wall"); ("N", "wall"); ("NE", "wall");
    ("W", "wall"); ("E", "wall");
    ("SW", "wall"); ("S", "wall"); ("SE", "wall") ].

(** The offsets of the eight neighbours, as the [result] literal of the
    classifier has them. *)
Definition offsets : list (string * (Z * Z)) :=
  [ ("NW", (-1, -1)); ("N", (0, -1)); ("NE", (1, -1));
    ("W", (-1, 0)); ("E", (1, 0));
    ("SW", (-1, 1)); ("S", (0, 1)); ("SE", (1, 1)) ].

(** The position in the flat list of cells that column [x], row [y] stands
    for, once a negative index has wrapped around. *)
Definition flat_position (m : message) (x y : Z) : nat :=
  Z.to_nat ((y * width m + x) mod Z.of_nat (length (cells m))).

(** The player in the first column. *)
Definition left_edge_player : message :=
  {| width := 3; height := 4;
     cells := [ "#"; "."; "%";
                "@"; "."; "x";
                "."; "a"; ".";
                "#"; "#"; "#" ] |}.

(** The player in the last row. *)
Definition bottom_player : message :=
  {| width := 3; height := 3;
     cells := [ "#"; "#"; "#";
                "#"; "."; "#";
                "#"; "@"; "#" ] |}.

(** A socket that is writable at every turn up to the one of Quit, and
    answers every turn up to the turn limit with a snapshot that
    classifies. *)
Definition cooperative (net : socket_env) (max_turns : Z) : Prop :=
  (forall t, 1 <= t <= max_turns + 1 -> writable net t = true) /\
  (forall t, 1 <= t <= max_turns ->
     exists reply d,
       readable net t = Some reply /\
       surroundings_from_message reply = Ok d).

(** A game that always answers with the same snapshot. *)
Definition steady_net : socket_env :=
  {| writable := fun _ => true; readable := fun _ => Some one_player |}.

(** The events of one kind, in order. *)
Fixpoint collect {A} (kind : event -> option A) (events : list event)
  : list A :=
  match events with
  | [] => []
  | e :: rest =>
      match kind e with
      | Some a => a :: collect kind rest
      | None => collect kind rest
      end
  end.

(** The files deleted, the processes started and the kills. *)
Definition unlinked : list event -> list string :=
  collect (fun e => match e with Unlink path => Some path | _ => None end).

Definition launched : list event -> list (list string) :=
  collect (fun e => match e with Popen argv => Some argv | _ => None end).

Definition killed : list event -> list unit :=
  collect (fun e => match e with Kill => Some tt | _ => None end).

(** The verdict of a trial whose replay phase ran. *)
Definition replayed (r : result string) : bool :=
  match r with
  | Ok verdict => negb (String.eqb verdict "UNEXPECTED")
  | Raise _ => false
  end.

(** A game that answers its first turn with a snapshot without player. *)
Definition headless_game : trial_env :=
  {| cargo_found := true;
     build_rc := 0;
     replay_file_name := "/tmp/tmpq3x";
     game_poll_early := None;
     game_stdout := "";
     game_stderr := "";
     net := {| writable := fun _ => true; readable := fun _ => Some no_player |};
     game_poll_late := None;
     replay_rc := 0;
     replay_stdout := "";
     replay_stderr := "";
     target_isdir := true;
     mkdir_ok := true;
     copyfile_ok := true;
     unlink_ok := true;
     now := "2017-03-04T10-00-00" |}.

(** A game that has exited by the time it is first polled. *)
Definition crashed_game : trial_env :=
  {| cargo_found := true;
     build_rc := 0;
     replay_file_name := "/tmp/tmpq3x";
     game_poll_early := Some 101;
     game_stdout := "";
     game_stderr := "no display";
     net := steady_net;
     game_poll_late := Some 101;
     replay_rc := 0;
     replay_stdout := "";
     replay_stderr := "";
     target_isdir := true;
     mkdir_ok := true;
     copyfile_ok := true;
     unlink_ok := true;
     now := "2017-03-04T10-00-00" |}.

(** The number of trials of a batch that returned a given verdict, and the
    number that returned at all. *)
Definition count_verdict (verdict : string) (outs : list (result string))
  : nat :=
  length (filter (fun o => match o with
                           | Ok v => String.eqb v verdict
                           | Raise _ => false
                           end) outs).

Definition completed (outs : list (result string)) : nat :=
  length (filter (fun o => match o with Ok _ => true | Raise _ => false end)
            outs).

(** The tally of a list of outcomes, as [results] holds it. *)
Definition tally (outs : list (result string)) : dict Z :=
  [ ("SUCCESS", Z.of_nat (count_verdict "SUCCESS" outs));
    ("FAILURE", Z.of_nat (count_verdict "FAILURE" outs));
    ("UNEXPECTED", Z.of_nat (count_verdict "UNEXPECTED" outs)) ].

(* ------------------------------------------------------------------ *)
(** * Properties *)

(** ** Loops and indexing *)

Section ForEach.
Context {S : Type}.
Variable body : Z -> S -> result S.

Lemma for_each_app (xs ys : list Z) (s : S) :
  for_each (xs ++ ys)%list body s = rbind (for_each xs body s) (for_each ys body).
Proof.
  revert s; induction xs as [|x xs IH]; intros s; simpl; [reflexivity|].
  destruct (body x s) as [s'|e]; simpl; [apply IH | reflexivity].
Qed.

(** A body that leaves the state alone on every element of the list. *)
Lemma for_each_id (xs : list Z) (s : S) :
  (forall x, In x xs -> body x s = Ok s) ->
  for_each xs body s = Ok s.
Proof.
  induction xs as [|x xs IH]; intros H; simpl; [reflexivity|].
  rewrite (H x (or_introl eq_refl)); simpl.
  apply IH; intros y Hy; apply H; right; exact Hy.
Qed.

(** A body that never raises on the elements of the list. *)
Lemma for_each_total (xs : list Z) :
  (forall x s, In x xs -> exists s', body x s = Ok s') ->
  forall s, exists s', for_each xs body s = Ok s'.
Proof.
  induction xs as [|x xs IH]; intros H s; simpl; [eauto|].
  destruct (H x s (or_introl eq_refl)) as [s1 E]; rewrite E; simpl.
  apply IH; intros y t Hy; apply H; right; exact Hy.
Qed.

(** An invariant of the loop. *)
Lemma for_each_inv (I : S -> Prop) (xs : list Z) :
  (forall x s s', In x xs -> I s -> body x s = Ok s' -> I s') ->
  forall s s', I s -> for_each xs body s = Ok s' -> I s'.
Proof.
  induction xs as [|x xs IH]; intros H s s' Hs; simpl.
  - intros [= <-]; exact Hs.
  - destruct (body x s) as [s1|e] eqn:E; simpl; [|discriminate].
    apply IH.
    + intros y t t' Hy; apply H; right; exact Hy.
    + eapply H; eauto; left; reflexivity.
Qed.

(** The state is decided by the last element that sets it. *)
Lemma for_each_last (before after : list Z) (x : Z) (s s0 : S) :
  (forall y t, In y before -> exists t', body y t = Ok t') ->
  (forall t, body x t = Ok s0) ->
  (forall y, In y after -> body y s0 = Ok s0) ->
  for_each (before ++ x :: after)%list body s = Ok s0.
Proof.
  intros Hb Hx Ha.
  rewrite for_each_app.
  destruct (for_each_total before Hb s) as [s1 E]; rewrite E; simpl.
  rewrite Hx; simpl.
  apply for_each_id; exact Ha.
Qed.
End ForEach.

Lemma in_range (n i : Z) : In i (range n) <-> 0 <= i < n.
Proof.
  unfold range; rewrite in_map_iff; split.
  - intros [k [<- Hk]]; apply in_seq in Hk; lia.
  - intros H; exists (Z.to_nat i); split; [lia|].
    apply in_seq; lia.
Qed.

(** [range n] cut at one of its elements. *)
Lemma range_split (n i : Z) :
  0 <= i < n ->
  exists after,
    range n = (range i ++ i :: after)%list /\
    forall j, In j after -> i < j < n.
Proof.
  intros H.
  exists (map Z.of_nat (seq (S (Z.to_nat i)) (Z.to_nat n - S (Z.to_nat i)))).
  split.
  - unfold range.
    replace (Z.to_nat n)
      with (Z.to_nat i + S (Z.to_nat n - S (Z.to_nat i)))%nat by lia.
    rewrite seq_app, map_app; simpl.
    replace (Z.of_nat (Z.to_nat i)) with i by lia.
    replace (Z.to_nat i + S (Z.to_nat n - S (Z.to_nat i)) - S (Z.to_nat i))%nat
      with (Z.to_nat n - S (Z.to_nat i))%nat by lia.
    reflexivity.
  - intros j Hj; apply in_map_iff in Hj; destruct Hj as [k [<- Hk]].
    apply in_seq in Hk; lia.
Qed.

Lemma py_index_in {A} (seq : list A) (i : Z) (a : A) :
  py_index seq i = Ok a -> In a seq.
Proof.
  unfold py_index.
  destruct (_ && _); [|discriminate].
  destruct (nth_error seq _) as [b|] eqn:E; [|discriminate].
  intros [= <-]; eapply nth_error_In; exact E.
Qed.

Lemma py_index_inside {A} (seq : list A) (i : Z) :
  0 <= i < Z.of_nat (length seq) ->
  exists a, py_index seq i = Ok a /\ nth_error seq (Z.to_nat i) = Some a.
Proof.
  intros H; unfold py_index.
  destruct (i <? 0) eqn:Ei; [lia|].
  replace ((0 <=? i) && (i <? Z.of_nat (length seq))) with true
    by (symmetry; apply andb_true_iff; split; lia).
  destruct (nth_error seq (Z.to_nat i)) as [a|] eqn:E; [eauto|].
  apply nth_error_None in E; lia.
Qed.

(* ------------------------------------------------------------------ *)
(** ** The classifier *)

Lemma find_player_unfold (m : message) :
  find_player m = for_each (range (width m)) (look_column m) None.
Proof. reflexivity. Qed.

Lemma cell_type_kind (cell : string) : In (cell_type cell) tile_kinds.
Proof.
  unfold cell_type, dict_mem, types, tile_kinds; simpl.
  repeat (destruct (String.eqb cell _); [simpl; tauto|]).
  simpl; tauto.
Qed.

Section Grid.
Variable m : message.
Hypothesis size_ok : Z.of_nat (length (cells m)) = width m * height m.

Lemma get_cell_inside (x y : Z) :
  0 <= x < width m -> 0 <= y < height m ->
  exists cell, get_cell m x y = Ok cell.
Proof.
  intros Hx Hy; unfold get_cell.
  destruct (py_index_inside (cells m) (y * width m + x)) as [a [E _]];
    [nia | eauto].
Qed.

Lemma look_total (x y : Z) (p : option (Z * Z)) :
  0 <= x < width m -> 0 <= y < height m ->
  exists p', look m x y p = Ok p'.
Proof.
  intros Hx Hy; unfold look.
  destruct (get_cell_inside x y Hx Hy) as [c E]; rewrite E; simpl.
  destruct (String.eqb _ _); eauto.
Qed.

Lemma look_player (x y : Z) (p : option (Z * Z)) :
  is_player m x y = true -> look m x y p = Ok (Some (x, y)).
Proof.
  unfold is_player, look.
  destruct (get_cell m x y) as [c|e]; simpl; [|discriminate].
  intros ->; reflexivity.
Qed.

Lemma look_other (x y : Z) (p : option (Z * Z)) :
  0 <= x < width m -> 0 <= y < height m ->
  is_player m x y = false -> look m x y p = Ok p.
Proof.
  intros Hx Hy; unfold is_player, look.
  destruct (get_cell_inside x y Hx Hy) as [c E]; rewrite E; simpl.
  intros ->; reflexivity.
Qed.

Lemma look_column_total (x : Z) (p : option (Z * Z)) :
  0 <= x < width m -> exists p', look_column m x p = Ok p'.
Proof.
  intros Hx; unfold look_column.
  apply for_each_total; intros y s Hy.
  apply look_total; [exact Hx | apply in_range; exact Hy].
Qed.

(** A column without a player leaves the position alone. *)
Lemma look_column_other (x : Z) (p : option (Z * Z)) :
  0 <= x < width m ->
  (forall y, 0 <= y < height m -> is_player m x y = false) ->
  look_column m x p = Ok p.
Proof.
  intros Hx H; unfold look_column.
  apply for_each_id; intros y Hy; apply in_range in Hy.
  apply look_other; auto.
Qed.

(** A column with a player sets the position to its lowest player. *)
Lemma look_column_player (x y : Z) (p : option (Z * Z)) :
  0 <= x < width m -> 0 <= y < height m ->
  is_player m x y = true ->
  (forall y', y < y' < height m -> is_player m x y' = false) ->
  look_column m x p = Ok (Some (x, y)).
Proof.
  intros Hx Hy Hp Hlast; unfold look_column.
  destruct (range_split (height m) y Hy) as [after [-> Hafter]].
  apply for_each_last.
  - intros y' t Hy'; apply in_range in Hy'.
    apply look_total; [exact Hx | lia].
  - intros t; apply look_player; exact Hp.
  - intros y' Hy'; apply Hafter in Hy'.
    apply look_other; [exact Hx | lia | apply Hlast; lia].
Qed.

(** The scan goes column by column, top to bottom in each, and keeps the
    last player cell it meets. *)
Lemma find_player_last (x y : Z) :
  0 <= x < width m -> 0 <= y < height m ->
  is_player m x y = true ->
  (forall x' y', 0 <= x' < width m -> 0 <= y' < height m ->
                 is_player m x' y' = true ->
                 x' < x \/ (x' = x /\ y' <= y)) ->
  find_player m = Ok (Some (x, y)).
Proof.
  intros Hx Hy Hp Hlast.
  assert (Hno : forall x' y', 0 <= x' < width m -> 0 <= y' < height m ->
                  x < x' \/ (x' = x /\ y < y') ->
                  is_player m x' y' = false).
  { intros x' y' Hx' Hy' Hlt.
    destruct (is_player m x' y') eqn:E; [|reflexivity].
    specialize (Hlast x' y' Hx' Hy' E); lia. }
  rewrite find_player_unfold.
  destruct (range_split (width m) x Hx) as [after [-> Hafter]].
  apply for_each_last.
  - intros x' t Hx'; apply in_range in Hx'.
    apply look_column_total; lia.
  - intros t; apply look_column_player; auto.
    intros y' Hy'; apply Hno; lia.
  - intros x' Hx'; apply Hafter in Hx'.
    apply look_column_other; [lia|].
    intros y' Hy'; apply Hno; lia.
Qed.
End Grid.

(** Whatever [around] returns has the eight directions as keys, in the
    order of [directions], and tile kinds as values. *)
Lemma around_shape (m : message) (x y : Z) (d : dict string) :
  around m x y = Ok d ->
  dict_keys d = directions /\ Forall (fun v => In v tile_kinds) (map snd d).
Proof.
  unfold around.
  repeat (match goal with
          | |- context [rbind (get_cell ?m ?a ?b) _] =>
              destruct (get_cell m a b); cbn [rbind]; [|discriminate]
          end).
  intros [= <-]; split; [reflexivity|].
  cbn [map snd].
  repeat (apply Forall_cons; [apply cell_type_kind|]).
  apply Forall_nil.
Qed.

Lemma around_inside (m : message) (x y : Z) :
  Z.of_nat (length (cells m)) = width m * height m ->
  1 <= x <= width m - 2 -> 1 <= y <= height m - 2 ->
  exists d, around m x y = Ok d.
Proof.
  intros Hs Hx Hy; unfold around.
  repeat (match goal with
          | |- context [rbind (get_cell ?m ?a ?b) _] =>
              let c := fresh "c" in
              let E := fresh "E" in
              destruct (get_cell_inside m Hs a b) as [c E];
              [lia | lia | rewrite E; simpl]
          end).
  eauto.
Qed.

Lemma surroundings_shape (m : message) (d : dict string) :
  surroundings_from_message m = Ok d ->
  dict_keys d = directions /\ Forall (fun v => In v tile_kinds) (map snd d).
Proof.
  unfold surroundings_from_message.
  destruct (negb _); [discriminate|].
  destruct (find_player m) as [[[x y]|]|e]; simpl; try discriminate.
  apply around_shape.
Qed.

Lemma is_player_cell (m : message) (x y : Z) :
  is_player m x y = true ->
  exists cell, get_cell m x y = Ok cell /\ cell_type cell = "player".
Proof.
  unfold is_player; destruct (get_cell m x y) as [c|e]; [|discriminate].
  intros H; apply String.eqb_eq in H; eauto.
Qed.

Lemma no_players (m : message) (x y : Z) :
  count_players m = 0%nat -> is_player m x y = false.
Proof.
  intros H; destruct (is_player m x y) eqn:E; [|reflexivity].
  apply is_player_cell in E; destruct E as [c [Ec Et]].
  apply py_index_in in Ec.
  assert (In c (filter (fun cell => String.eqb (cell_type cell) "player")
                       (cells m)))
    by (apply filter_In; split; [exact Ec | apply String.eqb_eq; exact Et]).
  unfold count_players in H; apply length_zero_iff_nil in H.
  rewrite H in *; contradiction.
Qed.

Lemma find_player_none (m : message) :
  Z.of_nat (length (cells m)) = width m * height m ->
  count_players m = 0%nat ->
  find_player m = Ok None.
Proof.
  intros Hs H; rewrite find_player_unfold.
  apply for_each_id; intros x Hx; apply in_range in Hx.
  apply look_column_other; auto.
  intros y _; apply no_players; exact H.
Qed.

(** Two different positions of a list that pass a test make the filtered
    list at least two long. *)
Lemma filter_two {A} (f : A -> bool) (l : list A) (i j : nat) (a b : A) :
  nth_error l i = Some a -> nth_error l j = Some b -> i <> j ->
  f a = true -> f b = true ->
  (2 <= length (filter f l))%nat.
Proof.
  revert i j; induction l as [|c l IH]; intros i j Hi Hj Hne Ha Hb.
  - destruct i; discriminate.
  - assert (Hone : forall k d, nth_error l k = Some d -> f d = true ->
                     (1 <= length (filter f l))%nat).
    { intros k d Hk Hd.
      assert (Hin : In d (filter f l))
        by (apply filter_In; split; [eapply nth_error_In; eauto | exact Hd]).
      destruct (filter f l); [contradiction | simpl; lia]. }
    destruct i as [|i], j as [|j]; simpl in *.
    + congruence.
    + injection Hi as ->; rewrite Ha; simpl.
      specialize (Hone j b Hj Hb); lia.
    + injection Hj as ->; rewrite Hb; simpl.
      specialize (Hone i a Hi Ha); lia.
    + specialize (IH i j Hi Hj (fun E => Hne (f_equal S E)) Ha Hb).
      destruct (f c); simpl; lia.
Qed.

(** With a single player cell, the player has a single position. *)
Lemma one_player_position (m : message) (x y x' y' : Z) :
  Z.of_nat (length (cells m)) = width m * height m ->
  count_players m = 1%nat ->
  0 <= x < width m -> 0 <= y < height m ->
  0 <= x' < width m -> 0 <= y' < height m ->
  is_player m x y = true -> is_player m x' y' = true ->
  x' = x /\ y' = y.
Proof.
  intros Hs H1 Hx Hy Hx' Hy' Hp Hp'.
  apply is_player_cell in Hp, Hp'.
  destruct Hp as [c [Ec Et]], Hp' as [c' [Ec' Et']].
  unfold get_cell in Ec, Ec'.
  destruct (py_index_inside (cells m) (y * width m + x)) as [a [Ea Na]];
    [nia|].
  destruct (py_index_inside (cells m) (y' * width m + x')) as [a' [Ea' Na']];
    [nia|].
  rewrite Ea in Ec; injection Ec as ->.
  rewrite Ea' in Ec'; injection Ec' as ->.
  destruct (Z.eq_dec (y' * width m + x') (y * width m + x)) as [E|E].
  - assert (y' = y) by nia. subst y'. split; [lia | reflexivity].
  - exfalso.
    assert (Hn : Z.to_nat (y * width m + x) <> Z.to_nat (y' * width m + x'))
      by nia.
    pose proof (filter_two (fun cell => String.eqb (cell_type cell) "player")
                  (cells m) _ _ c c' Na Na' Hn
                  (proj2 (String.eqb_eq _ _) Et)
                  (proj2 (String.eqb_eq _ _) Et')) as H2.
    unfold count_players in H1; lia.
Qed.

(** Dictionary lookups against the keys and the values. *)
Lemma dict_find_key {V} (k : string) (d : dict V) :
  In k (dict_keys d) -> exists v, dict_find k d = Some v.
Proof.
  induction d as [|[k' v'] d IH]; simpl; [contradiction|].
  intros [E|H].
  - subst k'; rewrite String.eqb_refl; eauto.
  - destruct (String.eqb k k'); eauto.
Qed.

Lemma dict_find_item {V} (k : string) (d : dict V) (v : V) :
  dict_find k d = Some v -> In (k, v) d.
Proof.
  induction d as [|[k' v'] d IH]; simpl; [discriminate|].
  destruct (String.eqb k k') eqn:E.
  - apply String.eqb_eq in E; subst k'; intros [= ->]; left; reflexivity.
  - intros H; right; apply IH; exact H.
Qed.

Lemma dict_get_kind (d : dict string) (k : string) (kinds : list string) :
  In k (dict_keys d) ->
  Forall (fun v => In v kinds) (map snd d) ->
  exists v, dict_get d k = Ok v /\ In v kinds.
Proof.
  intros Hk Hv; unfold dict_get.
  destruct (dict_find_key k d Hk) as [v E]; rewrite E.
  exists v; split; [reflexivity|].
  rewrite Forall_forall in Hv; apply Hv.
  apply dict_find_item in E.
  change v with (snd (k, v)); apply in_map; exact E.
Qed.

(** C8: for every valid snapshot (as many cells as [width * height], exactly
    one player cell, the player not on the border of the grid) the
    classifier returns a mapping whose keys are exactly the eight compass
    directions, each mapped to one of the seven tile kinds. *)
Theorem surroundings_of_valid_snapshot (m : message) (x y : Z) :
  Z.of_nat (length (cells m)) = width m * height m ->
  count_players m = 1%nat ->
  is_player m x y = true ->
  1 <= x <= width m - 2 ->
  1 <= y <= height m - 2 ->
  exists d,
    surroundings_from_message m = Ok d /\
    dict_keys d = directions /\
    forall direction, In direction directions ->
      exists tile, dict_get d direction = Ok tile /\ In tile tile_kinds.
Proof.
  intros Hs H1 Hp Hx Hy.
  assert (Hf : find_player m = Ok (Some (x, y))).
  { apply find_player_last; try lia; try assumption.
    intros x' y' Hx' Hy' Hp'.
    destruct (one_player_position m x y x' y') as [-> ->];
      try assumption; lia. }
  destruct (around_inside m x y Hs Hx Hy) as [d Hd].
  exists d.
  assert (Hr : surroundings_from_message m = Ok d).
  { unfold surroundings_from_message.
    replace (Z.of_nat (length (cells m)) =? width m * height m) with true
      by (symmetry; apply Z.eqb_eq; exact Hs).
    cbn [negb]; rewrite Hf; exact Hd. }
  destruct (around_shape m x y d Hd) as [Hk Hv].
  split; [exact Hr|]; split; [exact Hk|].
  intros direction Hin; apply dict_get_kind; [rewrite Hk; exact Hin | exact Hv].
Qed.

Lemma surroundings_of_valid_snapshot_witness :
  exists d,
    surroundings_from_message one_player = Ok d /\
    dict_keys d = directions /\
    forall direction, In direction directions ->
      exists tile, dict_get d direction = Ok tile /\ In tile tile_kinds.
Proof.
  apply (surroundings_of_valid_snapshot one_player 1 1);
    first [reflexivity | simpl; lia].
Defined.

(** C2 as stated fails: a snapshot with two player cells is classified, not
    rejected. *)
Lemma two_players_are_classified :
  count_players two_players = 2%nat /\
  surroundings_from_message two_players =
    Ok [ ("NW", "wall"); ("N", "wall"); ("NE", "wall");
         ("W", "empty"); ("E", "wall");
         ("SW", "wall"); ("S", "food"); ("SE", "wall") ].
Proof. split; reflexivity. Qed.

(** C2, amended: a snapshot without a player cell always makes the
    classifier raise ([AssertionError] when the size is wrong,
    [UnboundLocalError] otherwise) instead of returning a mapping; the number
    of player cells is not checked otherwise, and of several player cells the
    one met last in the scan (column by column, top to bottom) is the one
    classified. *)
Theorem surroundings_player_count (m : message) :
  (count_players m = 0%nat ->
   surroundings_from_message m =
     Raise (if Z.of_nat (length (cells m)) =? width m * height m
            then UnboundLocalError else AssertionError)) /\
  (forall x y,
     Z.of_nat (length (cells m)) = width m * height m ->
     0 <= x < width m -> 0 <= y < height m ->
     is_player m x y = true ->
     (forall x' y', 0 <= x' < width m -> 0 <= y' < height m ->
                    is_player m x' y' = true ->
                    x' < x \/ (x' = x /\ y' <= y)) ->
     surroundings_from_message m = around m x y).
Proof.
  split.
  - intros H0; unfold surroundings_from_message.
    destruct (Z.of_nat (length (cells m)) =? width m * height m) eqn:E;
      cbn [negb]; [|reflexivity].
    apply Z.eqb_eq in E.
    rewrite (find_player_none m E H0); reflexivity.
  - intros x y Hs Hx Hy Hp Hlast; unfold surroundings_from_message.
    replace (Z.of_nat (length (cells m)) =? width m * height m) with true
      by (symmetry; apply Z.eqb_eq; exact Hs).
    cbn [negb].
    rewrite (find_player_last m Hs x y Hx Hy Hp Hlast); reflexivity.
Qed.

Lemma surroundings_player_count_witness :
  surroundings_from_message no_player = Raise UnboundLocalError /\
  surroundings_from_message two_players = around two_players 3 1.
Proof.
  split.
  - exact (proj1 (surroundings_player_count no_player) eq_refl).
  - apply (proj2 (surroundings_player_count two_players) 3 1);
      try reflexivity; try (simpl; lia).
    intros x' y' Hx' Hy' Hp'.
    assert (Hx : x' = 0 \/ x' = 1 \/ x' = 2 \/ x' = 3 \/ x' = 4)
      by (simpl in Hx'; lia).
    assert (Hy : y' = 0 \/ y' = 1 \/ y' = 2) by (simpl in Hy'; lia).
    destruct Hx as [->|[->|[->|[->| ->]]]], Hy as [->|[->| ->]];
      first [discriminate Hp' | lia].
Defined.

(* ------------------------------------------------------------------ *)
(** ** Random choices *)

Lemma pick_below (n : nat) (w : world) : n <> 0%nat -> (pick n w < n)%nat.
Proof.
  intros H; unfold pick.
  assert (raw (gen w) mod N.of_nat n < N.of_nat n)%N
    by (apply N.mod_lt; lia).
  lia.
Qed.

(** Every index below [n] is drawn by some generator. *)
Lemma pick_any (n i : nat) : (i < n)%nat -> pick n (world_of [N.of_nat i]) = i.
Proof.
  intros H; unfold pick, raw; simpl.
  rewrite N.mod_small by lia; lia.
Qed.

Lemma randbelow_spec (n : nat) (w : world) :
  randbelow n w = (Ok (pick n w), step w).
Proof. reflexivity. Qed.

Lemma choice_spec {A} (seq : list A) (a0 : A) (w : world) :
  seq <> [] ->
  choice seq w = (Ok (nth (pick (length seq) w) seq a0), step w) /\
  (pick (length seq) w < length seq)%nat.
Proof.
  intros Hne.
  assert (Hlt : (pick (length seq) w < length seq)%nat)
    by (apply pick_below; destruct seq; [congruence | simpl; lia]).
  split; [|exact Hlt].
  destruct seq as [|a seq]; [congruence|].
  unfold choice, bind; rewrite randbelow_spec; unfold lift.
  destruct (py_index_inside (a :: seq) (Z.of_nat (pick (length (a :: seq)) w)))
    as [b [E N]]; [lia|].
  rewrite E, Nat2Z.id in *.
  rewrite (nth_error_nth _ _ a0 N); reflexivity.
Qed.

Lemma choice_in {A} (seq : list A) (w : world) :
  seq <> [] -> exists a, choice seq w = (Ok a, step w) /\ In a seq.
Proof.
  intros Hne; destruct seq as [|a0 seq]; [congruence|].
  destruct (choice_spec (a0 :: seq) a0 w Hne) as [E Hlt].
  eexists; split; [exact E | apply nth_In; exact Hlt].
Qed.

(* ------------------------------------------------------------------ *)
(** ** The key mapping *)

(** C6: the mapping from actions to key events is total and injective on
    the ten actions: each of them maps to one key event with [alt], [ctrl]
    and [shift] false, and two different actions never share a key event. *)
Theorem key_from_command_injective :
  Forall (fun command =>
            exists key_code,
              key_from_command command =
                Ok {| code := key_code;
                      alt := false; ctrl := false; shift := false |})
         actions /\
  (forall c1 c2,
     In c1 actions -> In c2 actions ->
     key_from_command c1 = key_from_command c2 -> c1 = c2).
Proof.
  split.
  - repeat (apply Forall_cons; [eexists; reflexivity|]); apply Forall_nil.
  - intros c1 c2 H1 H2 E.
    simpl in H1, H2.
    repeat (destruct H1 as [H1|H1]; [subst c1|]); try contradiction;
      repeat (destruct H2 as [H2|H2]; [subst c2|]); try contradiction;
      first [reflexivity | vm_compute in E; discriminate E].
Qed.

Lemma key_from_command_injective_witness :
  In "Eat" actions /\ In "Eat" actions /\
  key_from_command "Eat" = key_from_command "Eat" /\ "Eat" = "Eat".
Proof.
  assert (H1 : In "Eat" actions) by (simpl; tauto).
  split; [exact H1|]; split; [exact H1|]; split; [reflexivity|].
  exact (proj2 key_from_command_injective "Eat" "Eat" H1 H1 eq_refl).
Defined.

(* ------------------------------------------------------------------ *)
(** ** The decision policy *)

Lemma surroundings_from_message_is_surroundings (m : message) (d : dict string) :
  surroundings_from_message m = Ok d -> is_surroundings d.
Proof.
  intros H; apply surroundings_shape in H; destruct H as [Hk _].
  unfold is_surroundings; rewrite Hk; split; [|tauto].
  unfold directions.
  repeat (apply NoDup_cons;
          [simpl; intros H; repeat (destruct H as [H|H]; try discriminate H);
           exact H|]).
  apply NoDup_nil.
Qed.

Lemma str_in_In (x : string) (seq : list string) :
  str_in x seq = true <-> In x seq.
Proof.
  unfold str_in; rewrite existsb_exists; split.
  - intros [y [Hy E]]; apply String.eqb_eq in E; subst y; exact Hy.
  - intros H; exists x; split; [exact H | apply String.eqb_refl].
Qed.

Lemma dict_item_find {V} (k : string) (v : V) (d : dict V) :
  NoDup (dict_keys d) -> In (k, v) d -> dict_find k d = Some v.
Proof.
  induction d as [|[k' v'] d IH]; simpl; [contradiction|].
  intros Hnd [E|H].
  - injection E as -> ->; rewrite String.eqb_refl; reflexivity.
  - inversion Hnd as [|? ? Hnot Hnd']; subst.
    destruct (String.eqb k k') eqn:E.
    + apply String.eqb_eq in E; subst k'.
      exfalso; apply Hnot.
      change k with (fst (k, v)); apply in_map; exact H.
    + apply IH; assumption.
Qed.

Section DirectionsWhere.
Variable keep : string -> bool.
Variable display : dict string.

Lemma directions_where_keys :
  incl (directions_where keep display) (dict_keys display).
Proof.
  intros k H; unfold directions_where in H.
  apply in_map_iff in H; destruct H as [[k' v] [<- H]].
  apply filter_In in H; destruct H as [H _].
  unfold dict_keys; apply in_map; exact H.
Qed.

Lemma directions_where_NoDup :
  NoDup (dict_keys display) -> NoDup (directions_where keep display).
Proof.
  unfold directions_where, dict_keys.
  induction display as [|[k v] d IH]; simpl; intros H; [constructor|].
  inversion H as [|? ? Hnot Hnd]; subst.
  destruct (keep v); simpl; [|apply IH; exact Hnd].
  constructor; [|apply IH; exact Hnd].
  intros Hin; apply Hnot.
  apply in_map_iff in Hin; destruct Hin as [[k' v'] [E Hin]].
  apply filter_In in Hin; destruct Hin as [Hin _].
  simpl in E; subst k'.
  change k with (fst (k, v')); apply in_map; exact Hin.
Qed.

Lemma directions_where_In (k : string) :
  NoDup (dict_keys display) ->
  (In k (directions_where keep display) <->
   exists tile, dict_find k display = Some tile /\ keep tile = true).
Proof.
  intros Hnd; unfold directions_where; rewrite in_map_iff; split.
  - intros [[k' v] [E H]]; simpl in E; subst k'.
    apply filter_In in H; destruct H as [H Hv]; simpl in Hv.
    exists v; split; [apply dict_item_find; assumption | exact Hv].
  - intros [v [E Hv]].
    exists (k, v); split; [reflexivity|].
    apply filter_In; split; [apply dict_find_item; exact E | exact Hv].
Qed.
End DirectionsWhere.

(** C5: with a non-empty previous action and a Surroundings that has food
    in at least one direction, the policy returns the entry of the list of
    food directions at the index drawn below its length; the list holds each
    food direction exactly once and no other direction, so the result is a
    uniform draw among exactly the food directions. *)
Theorem next_command_food (previous_command : string) (display : dict string)
    (w : world) :
  previous_command <> "" ->
  is_surroundings display ->
  (exists direction, dict_get display direction = Ok "food") ->
  let food_directions :=
    directions_where (fun tile => String.eqb tile "food") display in
  let n := length food_directions in
  next_command (Some previous_command) (Some display) w =
    (Ok (nth (pick n w) food_directions ""), step w) /\
  (pick n w < n)%nat /\
  is_food display (nth (pick n w) food_directions "") = true /\
  forall direction,
    count_occ string_dec food_directions direction =
      if is_food display direction then 1%nat else 0%nat.
Proof.
  intros Hprev [Hnd Hkeys] [d0 Hd0] foods n.
  assert (Hin : forall k, In k foods <-> is_food display k = true).
  { intros k; unfold foods; rewrite directions_where_In by exact Hnd.
    unfold is_food; split.
    - intros [t [-> Ht]]; exact Ht.
    - destruct (dict_find k display) as [t|]; [eauto | discriminate]. }
  assert (Hne : foods <> []).
  { assert (H : In d0 foods).
    { apply Hin; unfold is_food; unfold dict_get in Hd0.
      destruct (dict_find d0 display); [|discriminate].
      injection Hd0 as ->; reflexivity. }
    intros E; rewrite E in H; exact H. }
  destruct (choice_spec foods "" w Hne) as [Hc Hlt].
  split; [|split; [exact Hlt|split]].
  - destruct display as [|item display]; [exfalso; apply Hne; reflexivity|].
    destruct previous_command as [|c p]; [congruence|].
    unfold next_command, forage; fold foods.
    destruct foods; [congruence | exact Hc].
  - apply Hin, nth_In, Hlt.
  - intros k; destruct (is_food display k) eqn:E.
    + apply NoDup_count_occ'; [|apply Hin; exact E].
      apply directions_where_NoDup; exact Hnd.
    + apply count_occ_not_In; rewrite Hin, E; discriminate.
Qed.

Lemma food_north_is_surroundings : is_surroundings food_north.
Proof.
  apply (surroundings_from_message_is_surroundings one_player); reflexivity.
Qed.

Lemma next_command_food_witness :
  next_command (Some "W") (Some food_north) (world_of [5%N]) =
    (Ok "N", step (world_of [5%N])).
Proof.
  assert (H1 : "W" <> "") by discriminate.
  assert (H3 : exists direction, dict_get food_north direction = Ok "food")
    by (exists "N"; reflexivity).
  exact (proj1 (next_command_food "W" food_north (world_of [5%N])
                  H1 food_north_is_surroundings H3)).
Defined.

(** C3 fails on the code: the comprehension that builds
    [preferred_directions] runs over all the keys of [adjacent_directions]
    and never looks up the entry of the previous command.  Going north with
    the north blocked, the draw 1/2 takes the momentum branch, and the
    choice is made among NE and S: index 1 returns S, which is not adjacent
    to N. *)
Theorem momentum_returns_opposite_direction :
  let w := world_of [(2 ^ 52)%N; 1%N] in
  fst (random w) = Ok (Qmake (2 ^ 52) (2 ^ 53)) /\
  Qle_bool (Qmake (2 ^ 52) (2 ^ 53)) (3 # 4) = true /\
  dict_get north_blocked "N" = Ok "wall" /\
  dict_get adjacent_directions "N" = Ok ["NE"; "NW"] /\
  preferred_directions north_blocked = Ok ["NE"; "S"] /\
  next_command (Some "N") (Some north_blocked) w = (Ok "S", step (step w)).
Proof. repeat split. Qed.

Lemma filter_res_total {A} (keep : A -> result bool) (l : list A) :
  (forall a, In a l -> exists b, keep a = Ok b) ->
  exists l', filter_res keep l = Ok l' /\ incl l' l.
Proof.
  induction l as [|a l IH]; intros H; simpl.
  - exists []; split; [reflexivity | apply incl_refl].
  - destruct (H a (or_introl eq_refl)) as [b ->]; simpl.
    destruct IH as [l' [-> Hl']]; [intros; apply H; right; assumption|].
    simpl; destruct b; eexists; split; try reflexivity.
    + apply incl_cons; [left; reflexivity | apply incl_tl; exact Hl'].
    + apply incl_tl; exact Hl'.
Qed.

Section Policy.
Variable display : dict string.
Hypothesis display_ok : is_surroundings display.

Lemma display_get (direction : string) :
  In direction directions -> exists tile, dict_get display direction = Ok tile.
Proof.
  intros H; apply display_ok in H.
  destruct (dict_find_key _ _ H) as [v E].
  unfold dict_get; rewrite E; eauto.
Qed.

Lemma directions_where_directions (keep : string -> bool) :
  incl (directions_where keep display) directions.
Proof.
  intros k H; apply display_ok.
  apply (directions_where_keys keep display); exact H.
Qed.

Lemma preferred_directions_ok :
  exists l, preferred_directions display = Ok l /\ incl l directions.
Proof.
  unfold preferred_directions.
  apply filter_res_total; intros direction H.
  destruct (display_get direction H) as [tile ->]; simpl; eauto.
Qed.

Lemma wander_direction (w : world) :
  exists direction,
    wander display w = (Ok direction, step w) /\ In direction directions.
Proof.
  unfold wander.
  destruct (directions_where walkable display) as [|a l] eqn:E.
  - apply choice_in; discriminate.
  - destruct (choice_in (a :: l) w) as [b [Hb Hin]]; [discriminate|].
    exists b; split; [exact Hb|].
    apply (directions_where_directions walkable); rewrite E; exact Hin.
Qed.

Lemma forage_direction (previous_command : string) (w : world) :
  exists direction w',
    forage previous_command display w = (Ok direction, w') /\
    In direction directions /\ log w' = log w.
Proof.
  unfold forage.
  destruct (directions_where (fun tile => String.eqb tile "food") display)
    as [|a l] eqn:Ef.
  2:{ destruct (choice_in (a :: l) w) as [b [Hb Hin]]; [discriminate|].
      exists b, (step w); repeat split; [exact Hb|].
      eapply directions_where_directions; rewrite Ef; exact Hin. }
  destruct (directions_where (fun tile => String.eqb tile "dose") display)
    as [|a l] eqn:Ed.
  2:{ destruct (choice_in (a :: l) w) as [b [Hb Hin]]; [discriminate|].
      exists b, (step w); repeat split; [exact Hb|].
      eapply directions_where_directions; rewrite Ed; exact Hin. }
  assert (Hw : forall w0, log w0 = log w ->
            exists direction w',
              wander display w0 = (Ok direction, w') /\
              In direction directions /\ log w' = log w).
  { intros w0 Hlog; destruct (wander_direction w0) as [b [Hb Hin]].
    exists b, (step w0); repeat split; assumption. }
  destruct (str_in previous_command directions) eqn:Ep; [|apply Hw; reflexivity].
  apply str_in_In in Ep.
  unfold bind at 1; change (random w) with
    (Ok (Qmake (Z.of_N (raw (gen w) mod 2 ^ 53)) (2 ^ 53)), step w).
  cbv beta iota.
  destruct (Qle_bool _ _); [|apply Hw; reflexivity].
  destruct (display_get previous_command Ep) as [tile Et].
  unfold bind at 1, lift at 1; rewrite Et.
  destruct (walkable tile).
  { exists previous_command, (step w); repeat split; exact Ep. }
  destruct preferred_directions_ok as [pref [Epref Hpref]].
  unfold bind, lift; rewrite Epref.
  destruct pref as [|a l]; [apply Hw; reflexivity|].
  destruct (choice_in (a :: l) (step w)) as [b [Hb Hin]]; [discriminate|].
  exists b, (step (step w)); repeat split; [exact Hb | apply Hpref; exact Hin].
Qed.
End Policy.

(** The policy always answers with a compass direction, and leaves the log
    alone. *)
Lemma next_command_direction (previous_command : option string)
    (display : option (dict string)) (w : world) :
  (forall d, display = Some d -> d <> [] -> is_surroundings d) ->
  exists direction w',
    next_command previous_command display w = (Ok direction, w') /\
    In direction directions /\ log w' = log w.
Proof.
  intros Hd.
  assert (Hc : exists direction w',
             choice directions w = (Ok direction, w') /\
             In direction directions /\ log w' = log w).
  { destruct (choice_in directions w) as [b [Hb Hin]]; [discriminate|].
    exists b, (step w); repeat split; assumption. }
  unfold next_command.
  destruct display as [[|item d]|]; try exact Hc.
  destruct previous_command as [[|c p]|]; try exact Hc.
  apply forage_direction, Hd; [reflexivity | discriminate].
Qed.

(* ------------------------------------------------------------------ *)
(** ** The session *)

Lemma after_after (w : world) (l1 l2 : list event) :
  after (after w l1) l2 = after w (l1 ++ l2)%list.
Proof. unfold after; simpl; rewrite app_assoc; reflexivity. Qed.

Lemma emit_after (e : event) (w : world) : emit e w = (Ok tt, after w [e]).
Proof. reflexivity. Qed.

Lemma key_of_direction (c : string) :
  In c directions ->
  String.eqb c "Quit" = false /\
  exists k, key_from_command c = Ok k /\
            k <> key_from_code "Q" /\ k <> key_from_code "D1".
Proof.
  simpl; intros H.
  repeat (destruct H as [H|H]; [subst c|]); try contradiction;
    (split; [reflexivity | eexists; repeat split; discriminate]).
Qed.

(** One pass of the loop, spelt out.  Past the turn limit the command is
    Quit and the loop ends; before it, the command is a direction and the
    loop goes on only with a reply that classifies. *)
Lemma game_loop_step (fuel : nat) (net : socket_env) (max_turns turns : Z)
    (previous_command : option string) (display : option (dict string))
    (w : world) :
  (forall d, display = Some d -> is_surroundings d) ->
  let t := turns + 1 in
  (t > max_turns /\
   game_loop (S fuel) net max_turns turns previous_command display w =
     (Ok tt, after w [if writable net t then Send (key_from_code "Q")
                      else not_writable])) \/
  (t <= max_turns /\
   exists c k w1,
     next_command previous_command display w = (Ok c, w1) /\
     In c directions /\ key_from_command c = Ok k /\ log w1 = log w /\
     game_loop (S fuel) net max_turns turns previous_command display w =
       if writable net t then
         match readable net t with
         | Some reply =>
             match surroundings_from_message reply with
             | Ok d =>
                 game_loop fuel net max_turns t (Some c) (Some d)
                   (after w1 [Send k; Recv; Sleep 300])
             | Raise e => (Raise e, after w1 [Send k; Recv])
             end
         | None => (Ok tt, after w1 [Send k; timed_out])
         end
       else (Ok tt, after w1 [not_writable])).
Proof.
  intros Hd t.
  destruct (t >? max_turns) eqn:Et.
  - left; split; [lia|].
    cbn [game_loop]; fold t; rewrite Et.
    unfold bind at 1, ret at 1.
    destruct (writable net t); reflexivity.
  - right; split; [lia|].
    destruct (next_command_direction previous_command display w
                (fun d E _ => Hd d E))
      as [c [w1 [Ec [Hc Hlog]]]].
    destruct (key_of_direction c Hc) as [Hq [k [Ek _]]].
    exists c, k, w1; repeat split; try assumption.
    cbn [game_loop]; fold t; rewrite Et.
    unfold bind at 1; rewrite Ec.
    unfold bind at 1, lift at 1; rewrite Ek.
    destruct (writable net t); [|reflexivity].
    unfold bind at 1; rewrite emit_after, Hq.
    destruct (readable net t) as [reply|];
      [|rewrite emit_after, after_after; reflexivity].
    unfold bind at 1; rewrite emit_after, after_after.
    unfold bind at 1, lift at 1.
    destruct (surroundings_from_message reply) as [d|e]; [|reflexivity].
    unfold bind at 1; rewrite emit_after, after_after.
    reflexivity.
Qed.

(** With fuel for the turns that are left, the loop runs to its end and
    its events form a session trace. *)
Lemma game_loop_trace (net : socket_env) (max_turns : Z) (fuel : nat) :
  forall (turns : Z) (previous_command : option string)
         (display : option (dict string)) (w : world),
    (forall d, display = Some d -> is_surroundings d) ->
    (1 <= fuel)%nat -> Z.of_nat fuel > max_turns - turns ->
    exists r events w',
      game_loop fuel net max_turns turns previous_command display w = (r, w') /\
      log w' = (log w ++ events)%list /\
      session_trace net max_turns turns events r.
Proof.
  induction fuel as [|fuel IH]; intros turns prev display w Hd H1 Hfuel; [lia|].
  destruct (game_loop_step fuel net max_turns turns prev display w Hd)
    as [[Ht E]|[Ht [c [k [w1 [Ec [Hc [Ek [Hlog E]]]]]]]]]; rewrite E; clear E.
  - destruct (writable net (turns + 1)) eqn:Ew;
      do 3 eexists; (split; [reflexivity|]); (split; [reflexivity|]).
    + apply st_quit; assumption.
    + apply st_not_writable; assumption.
  - destruct (writable net (turns + 1)) eqn:Ew.
    2:{ exists (Ok tt), [not_writable], (after w1 [not_writable]).
        split; [reflexivity|]; split; [simpl; rewrite Hlog; reflexivity|].
        apply st_not_writable; assumption. }
    destruct (readable net (turns + 1)) as [reply|] eqn:Er.
    2:{ exists (Ok tt), [Send k; timed_out], (after w1 [Send k; timed_out]).
        split; [reflexivity|]; split; [simpl; rewrite Hlog; reflexivity|].
        eapply st_timed_out; eassumption. }
    destruct (surroundings_from_message reply) as [d|e] eqn:Es.
    2:{ exists (Raise e), [Send k; Recv], (after w1 [Send k; Recv]).
        split; [reflexivity|]; split; [simpl; rewrite Hlog; reflexivity|].
        eapply st_bad_reply; eassumption. }
    destruct (IH (turns + 1) (Some c) (Some d)
                (after w1 [Send k; Recv; Sleep 300]))
      as [r [events [w' [E [Hlog' Ht']]]]].
    + intros d' [= <-].
      eapply surroundings_from_message_is_surroundings; exact Es.
    + lia.
    + lia.
    + exists r, (Send k :: Recv :: Sleep 300 :: events), w'.
      split; [exact E|]; split.
      * rewrite Hlog'; simpl; rewrite Hlog, <- app_assoc; reflexivity.
      * eapply st_turn; eassumption.
Qed.

Lemma draw_max_turns_spec (w : world) :
  draw_max_turns w = (Ok (210 + Z.of_nat (pick 191 w)), step w).
Proof.
  unfold draw_max_turns, randint, bind, ret.
  change (Z.to_nat (200 - 10 + 1)) with 191%nat.
  rewrite randbelow_spec.
  do 2 f_equal; lia.
Qed.

(** [run_game] always comes back: it opens the connection, draws the turn
    limit, plays a session and, unless the classifier raised, closes the
    connection. *)
Lemma run_game_trace (net : socket_env) (w : world) :
  exists r events w',
    run_game net w = (r, w') /\
    session_trace net (210 + Z.of_nat (pick 191 w)) 0 events r /\
    log w' = (log w ++ session_opening ++ events ++
              match r with Ok _ => session_closing | Raise _ => [] end)%list.
Proof.
  unfold run_game.
  do 3 (unfold bind at 1; rewrite emit_after).
  rewrite !after_after; cbn [app].
  unfold bind at 1; rewrite draw_max_turns_spec.
  change (pick 191 (after w _)) with (pick 191 w).
  set (max_turns := 210 + Z.of_nat (pick 191 w)).
  destruct (game_loop_trace net max_turns (S (Z.to_nat max_turns)) 0 None None
              (step (after w session_opening)))
    as [r [events [w' [E [Hlog Ht]]]]]; [discriminate | lia | lia |].
  unfold bind at 1; fold session_opening; rewrite E.
  destruct r as [[]|e].
  - do 2 (unfold bind at 1; rewrite emit_after).
    rewrite emit_after, !after_after; cbn [app].
    exists (Ok tt), events, (after w' session_closing).
    split; [reflexivity|]; split; [exact Ht|].
    simpl; rewrite Hlog; simpl; rewrite <- !app_assoc; reflexivity.
  - exists (Raise e), events, w'.
    split; [reflexivity|]; split; [exact Ht|].
    rewrite Hlog; simpl; rewrite app_nil_r, <- !app_assoc; reflexivity.
Qed.

(** The classifier raises nothing but its own three exceptions. *)
Lemma for_each_raises {S} (P : exn -> Prop) (body : Z -> S -> result S)
    (xs : list Z) :
  (forall x s e, body x s = Raise e -> P e) ->
  forall s e, for_each xs body s = Raise e -> P e.
Proof.
  intros Hb; induction xs as [|x xs IH]; intros s e; simpl; [discriminate|].
  destruct (body x s) as [s'|e'] eqn:E; simpl.
  - apply IH.
  - intros [= <-]; eapply Hb; exact E.
Qed.

Lemma get_cell_raises (m : message) (x y : Z) (e : exn) :
  get_cell m x y = Raise e -> e = IndexError.
Proof.
  unfold get_cell, py_index.
  destruct (_ && _); [destruct (nth_error _ _)|]; congruence.
Qed.

Lemma surroundings_raises (m : message) (e : exn) :
  surroundings_from_message m = Raise e ->
  In e [AssertionError; UnboundLocalError; IndexError].
Proof.
  unfold surroundings_from_message.
  destruct (negb _); [intros [= <-]; simpl; tauto|].
  destruct (find_player m) as [[[x y]|]|e'] eqn:Ef; simpl.
  - unfold around.
    repeat (match goal with
            | |- context [rbind (get_cell ?m ?a ?b) _] =>
                let E := fresh "E" in
                destruct (get_cell m a b) eqn:E; cbn [rbind];
                [|intros [= <-]; apply get_cell_raises in E; subst;
                  simpl; tauto]
            end).
    discriminate.
  - intros [= <-]; simpl; tauto.
  - intros [= <-].
    assert (e' = IndexError); [|subst; simpl; tauto].
    revert Ef; rewrite find_player_unfold.
    apply (for_each_raises (fun e => e = IndexError));
      intros x s e; unfold look_column.
    apply (for_each_raises (fun e => e = IndexError));
      intros y s' e0; unfold look.
    destruct (get_cell m x y) eqn:E; simpl.
    + destruct (String.eqb _ _); discriminate.
    + intros [= <-]; eapply get_cell_raises; exact E.
Qed.

Lemma sent_app (l1 l2 : list event) : sent (l1 ++ l2) = (sent l1 ++ sent l2)%list.
Proof.
  induction l1 as [|e l1 IH]; simpl; [reflexivity|].
  destruct e; simpl; rewrite IH; reflexivity.
Qed.

Section SessionTrace.
Variable net : socket_env.
Variable max_turns : Z.

Lemma session_trace_events (turns : Z) (events : list event)
    (r : result unit) :
  session_trace net max_turns turns events r -> Forall session_event events.
Proof.
  induction 1; repeat (apply Forall_cons; [exact I|]);
    first [apply Forall_nil | assumption].
Qed.

Lemma session_trace_result (turns : Z) (events : list event)
    (r : result unit) :
  session_trace net max_turns turns events r ->
  r = Ok tt \/
  exists e, r = Raise e /\ In e [AssertionError; UnboundLocalError; IndexError].
Proof.
  induction 1; auto.
  right; eexists; split; [reflexivity|].
  eapply surroundings_raises; eassumption.
Qed.

(** The keys sent are those of directions, one per turn up to the turn
    limit, and then at most the key of Quit, past the limit. *)
Lemma session_trace_sent (turns : Z) (events : list event)
    (r : result unit) :
  session_trace net max_turns turns events r ->
  exists (cs : list string) (ks : list key) (quit : bool),
    Forall2 (fun c k => In c directions /\ key_from_command c = Ok k) cs ks /\
    sent events = (ks ++ if quit then [key_from_code "Q"] else [])%list /\
    (quit = true -> turns + Z.of_nat (length ks) + 1 > max_turns) /\
    (ks <> [] -> turns + Z.of_nat (length ks) <= max_turns).
Proof.
  induction 1 as [t Ht Hw | t Hw | t c k Ht Hc Hk Hw Hr
                  | t c k reply e Ht Hc Hk Hw Hr He
                  | t c k reply d rest r Ht Hc Hk Hw Hr Hd Hrest IH].
  - exists [], [], true; split; [constructor|]; split; [reflexivity|].
    split; [intros _; simpl; lia | congruence].
  - exists [], [], false; split; [constructor|]; split; [reflexivity|].
    split; congruence.
  - exists [c], [k], false.
    split; [constructor; [split; assumption | constructor]|].
    split; [reflexivity|].
    split; [congruence | intros _; simpl; lia].
  - exists [c], [k], false.
    split; [constructor; [split; assumption | constructor]|].
    split; [reflexivity|].
    split; [congruence | intros _; simpl; lia].
  - destruct IH as [cs [ks [quit [Hf [Hs [Hq Hn]]]]]].
    exists (c :: cs), (k :: ks), quit; split; [|split; [|split]].
    + constructor; [split; assumption | exact Hf].
    + simpl; rewrite Hs; reflexivity.
    + intros Eq; specialize (Hq Eq); simpl length; lia.
    + intros _; simpl length.
      destruct ks as [|k' ks']; [simpl; lia|].
      assert (k' :: ks' <> []) as Hne by discriminate.
      specialize (Hn Hne); simpl length in *; lia.
Qed.

(** A timeout is the last thing that happens in a session, which then
    ends without an exception. *)
Lemma session_trace_timed_out (turns : Z) (events : list event)
    (r : result unit) :
  session_trace net max_turns turns events r ->
  In timed_out events ->
  r = Ok tt /\
  exists before k, events = (before ++ [Send k; timed_out])%list.
Proof.
  induction 1 as [t Ht Hw | t Hw | t c k Ht Hc Hk Hw Hr
                  | t c k reply e Ht Hc Hk Hw Hr He
                  | t c k reply d rest r Ht Hc Hk Hw Hr Hd Hrest IH];
    simpl; intros Hin.
  - destruct Hin as [Hin|[]]; discriminate Hin.
  - destruct Hin as [Hin|[]]; discriminate Hin.
  - split; [reflexivity|]; exists [], k; reflexivity.
  - destruct Hin as [Hin|[Hin|[]]]; discriminate Hin.
  - destruct Hin as [Hin|[Hin|[Hin|Hin]]]; try discriminate Hin.
    destruct (IH Hin) as [-> [before [k' ->]]].
    split; [reflexivity|].
    exists (Send k :: Recv :: Sleep 300 :: before), k'; reflexivity.
Qed.
End SessionTrace.

(* ------------------------------------------------------------------ *)
(** ** The trial *)

Lemma os_call_spec (ok : bool) (effect : event) (w : world) :
  os_call ok effect w =
    if ok then (Ok tt, after w [effect]) else (Raise OSError, w).
Proof. destruct ok; reflexivity. Qed.

Lemma replay_phase_spec (env : trial_env) (w : world) :
  replay_phase env w = (replay_result env, after w (replay_events env)).
Proof.
  unfold replay_phase, replay_result, files_ok, replay_events,
    archive_events, archive_dir_ok, replay_verdict, bug_path.
  do 2 (unfold bind at 1; rewrite emit_after).
  destruct (replay_rc env =? 0).
  - unfold bind at 1; rewrite emit_after.
    unfold bind at 1; rewrite os_call_spec.
    destruct (unlink_ok env); rewrite !after_after; reflexivity.
  - do 4 (unfold bind at 1; rewrite emit_after).
    unfold bind at 1.
    destruct (target_isdir env); cbn [negb orb andb].
    + unfold ret at 1.
      unfold bind at 1; rewrite os_call_spec.
      destruct (copyfile_ok env); cbn [andb];
        [|rewrite !after_after; reflexivity].
      unfold bind at 1; rewrite os_call_spec.
      destruct (unlink_ok env); rewrite !after_after; reflexivity.
    + rewrite os_call_spec.
      destruct (mkdir_ok env); cbn [andb];
        [|rewrite !after_after; reflexivity].
      unfold bind at 1; rewrite os_call_spec.
      destruct (copyfile_ok env); cbn [andb];
        [|rewrite !after_after; reflexivity].
      unfold bind at 1; rewrite os_call_spec.
      destruct (unlink_ok env); rewrite !after_after; reflexivity.
Qed.

Lemma after_session_spec (env : trial_env) (w : world) :
  after_session env w =
    if game_failed env
    then (Ok "UNEXPECTED", after w (status_events env))
    else (replay_result env,
          after w (status_events env ++ replay_events env)).
Proof.
  unfold after_session, game_failed, status_events.
  do 2 (unfold bind at 1; rewrite emit_after).
  destruct (game_poll_late env) as [rc|].
  - destruct (rc =? 0); cbn [negb].
    + unfold bind at 1; rewrite emit_after, replay_phase_spec.
      rewrite !after_after; reflexivity.
    + do 3 (unfold bind at 1; rewrite emit_after).
      rewrite !after_after; reflexivity.
  - unfold bind at 1; rewrite emit_after, replay_phase_spec.
    rewrite !after_after; reflexivity.
Qed.

(** [test_run], one branch at a time. *)
Lemma test_run_spec (env : trial_env) (w : world) :
  test_run env w =
    if cargo_found env then
      if build_rc env =? 0 then
        match game_poll_early env with
        | Some _ =>
            (Ok "UNEXPECTED",
             after w (build_events ++ launch_events env
                      ++ premature_events env))
        | None =>
            match run_game (net env)
                    (after w (build_events ++ launch_events env
                              ++ [Print "Sending commands"])) with
            | (Ok _, w1) => after_session env w1
            | (Raise e, w1) => (Raise e, w1)
            end
        end
      else
        (Ok "UNEXPECTED",
         after w (build_events ++ [Print "Error building dose-response"]))
    else (Raise OSError, after w [Print "Building dose-response"]).
Proof.
  unfold test_run, build_events, launch_events, premature_events.
  unfold bind at 1; rewrite emit_after.
  destruct (cargo_found env); [|reflexivity].
  unfold bind at 1, ret at 1.
  unfold bind at 1; rewrite emit_after.
  destruct (build_rc env =? 0); cbn [negb].
  2:{ unfold bind at 1; rewrite emit_after, !after_after; reflexivity. }
  do 4 (unfold bind at 1; rewrite emit_after).
  destruct (game_poll_early env) as [rc|].
  - do 3 (unfold bind at 1; rewrite emit_after).
    rewrite !after_after; reflexivity.
  - unfold bind at 1; rewrite emit_after, !after_after.
    unfold bind at 1; cbn [app].
    destruct (run_game (net env) _) as [[[]|e] w1]; reflexivity.
Qed.

(** [test_run] always comes back, along one of the branches above. *)
Lemma test_run_trace (env : trial_env) (w : world) :
  exists r events w',
    test_run env w = (r, w') /\
    log w' = (log w ++ events)%list /\
    trial_trace env (210 + Z.of_nat (pick 191 w)) events r.
Proof.
  rewrite test_run_spec.
  destruct (cargo_found env) eqn:Ec.
  2:{ do 3 eexists; split; [reflexivity|]; split; [reflexivity|].
      apply tt_no_cargo; exact Ec. }
  destruct (build_rc env =? 0) eqn:Eb.
  2:{ do 3 eexists; split; [reflexivity|]; split; [reflexivity|].
      apply tt_build_failed; [exact Ec | lia]. }
  apply Z.eqb_eq in Eb.
  destruct (game_poll_early env) as [rc|] eqn:Ep.
  { do 3 eexists; split; [reflexivity|]; split; [reflexivity|].
    eapply tt_premature; eassumption. }
  set (w0 := after w _).
  destruct (run_game_trace (net env) w0)
    as [r [session [w1 [E [Ht Hlog]]]]].
  change (pick 191 w0) with (pick 191 w) in Ht.
  assert (Hpre : (log w0 ++ session_opening)%list
                 = (log w ++ session_prefix env)%list).
  { unfold w0, session_prefix; simpl; rewrite <- !app_assoc; reflexivity. }
  rewrite E.
  destruct r as [[]|e].
  - rewrite after_session_spec.
    destruct (game_failed env) eqn:Eg.
    + do 3 eexists; split; [reflexivity|]; split;
        [|apply (tt_game_failed env _ session); assumption].
      simpl; rewrite Hlog, !app_assoc, Hpre, <- !app_assoc; reflexivity.
    + do 3 eexists; split; [reflexivity|]; split;
        [|apply (tt_replayed env _ session); assumption].
      simpl; rewrite Hlog, !app_assoc, Hpre, <- !app_assoc; reflexivity.
  - do 3 eexists; split; [reflexivity|]; split;
      [|apply (tt_session_raised env _ session); assumption].
    rewrite Hlog, app_nil_r, !app_assoc, Hpre, <- !app_assoc; reflexivity.
Qed.

(* ------------------------------------------------------------------ *)
(** ** The turn limit *)

(** C4 as stated fails: when [randint] draws its upper end the turn limit
    is 400. *)
Lemma max_turns_can_be_400 :
  draw_max_turns (world_of [190%N]) = (Ok 400, step (world_of [190%N])).
Proof. reflexivity. Qed.

(** C4, amended: the turn limit is drawn once per session, before the loop,
    as [210] plus an index drawn below 191, so it is uniform over the
    integers from 210 to 400, both included; the loop receives that value
    and never draws it again. *)
Theorem max_turns_drawn_once (net : socket_env) (w : world) :
  let max_turns := 210 + Z.of_nat (pick 191 w) in
  draw_max_turns w = (Ok max_turns, step w) /\
  210 <= max_turns <= 400 /\
  Forall (fun i => draw_max_turns (world_of [N.of_nat i]) =
                     (Ok (210 + Z.of_nat i), step (world_of [N.of_nat i])))
         (seq 0 191) /\
  run_game net w =
    (game_loop (S (Z.to_nat max_turns)) net max_turns 0 None None ;;;
     emit (Print "Closing the connection") ;;;
     emit SocketClose ;;;
     emit ContextTerm)%io (step (after w session_opening)).
Proof.
  intros max_turns; split; [apply draw_max_turns_spec|]; split; [|split].
  - assert (pick 191 w < 191)%nat by (apply pick_below; discriminate).
    unfold max_turns; lia.
  - apply Forall_forall; intros i Hi; apply in_seq in Hi.
    rewrite draw_max_turns_spec, pick_any by lia; reflexivity.
  - unfold run_game.
    do 3 (unfold bind at 1; rewrite emit_after).
    rewrite !after_after; cbn [app].
    unfold bind at 1; rewrite draw_max_turns_spec; reflexivity.
Qed.

(* ------------------------------------------------------------------ *)
(** ** Commands of a session *)

Lemma direction_keys (cs : list string) (ks : list key) :
  Forall2 (fun c k => In c directions /\ key_from_command c = Ok k) cs ks ->
  ~ In (key_from_code "D1") ks /\ ~ In (key_from_code "Q") ks.
Proof.
  induction 1 as [|c k cs ks [Hc Hk] _ [IH1 IH2]]; [simpl; tauto|].
  destruct (key_of_direction c Hc) as [_ [k' [Hk' [Hq Hd]]]].
  assert (k' = k) by congruence; subst k'.
  split; intros [E|Hin]; auto.
Qed.

(** C10: whatever the previous action (or none), the Surroundings (or none,
    or an empty one) and the draws, the policy returns one of the eight
    directions, never Eat or Quit; and the
    keys a session sends are keys of directions followed by at most one key
    of Quit, sent only after [max_turns] directions, while the key of Eat is
    never sent. *)
Theorem policy_returns_directions_only :
  (forall previous_command display w,
     (forall d, display = Some d -> d <> [] -> is_surroundings d) ->
     exists direction w',
       next_command previous_command display w = (Ok direction, w') /\
       In direction directions /\
       direction <> "Eat" /\ direction <> "Quit") /\
  key_from_command "Eat" = Ok (key_from_code "D1") /\
  key_from_command "Quit" = Ok (key_from_code "Q") /\
  (forall net w,
     exists r w' cs ks (quit : bool),
       run_game net w = (r, w') /\
       sent (log w') =
         (sent (log w) ++ ks ++
          if quit then [key_from_code "Q"] else [])%list /\
       Forall2 (fun c k => In c directions /\ key_from_command c = Ok k)
               cs ks /\
       (quit = true -> Z.of_nat (length ks) = 210 + Z.of_nat (pick 191 w)) /\
       ~ In (key_from_code "D1") ks /\ ~ In (key_from_code "Q") ks).
Proof.
  split; [|split; [reflexivity|split; [reflexivity|]]].
  - intros prev display w Hd.
    destruct (next_command_direction prev display w Hd)
      as [c [w' [E [Hc _]]]].
    exists c, w'; split; [exact E|]; split; [exact Hc|].
    simpl in Hc; split; intros ->;
      repeat (destruct Hc as [Hc|Hc]; [discriminate Hc|]); exact Hc.
  - intros net w.
    destruct (run_game_trace net w) as [r [events [w' [E [Ht Hlog]]]]].
    destruct (session_trace_sent _ _ _ _ _ Ht)
      as [cs [ks [quit [Hf [Hs [Hq Hn]]]]]].
    exists r, w', cs, ks, quit.
    split; [exact E|]; split; [|split; [exact Hf|split]].
    + rewrite Hlog, !sent_app, Hs.
      replace (sent session_opening) with (@nil key) by reflexivity.
      replace (sent (match r with Ok _ => session_closing | Raise _ => [] end))
        with (@nil key) by (destruct r; reflexivity).
      rewrite app_nil_r; reflexivity.
    + intros Eq; specialize (Hq Eq).
      assert (H : (pick 191 w < 191)%nat) by (apply pick_below; discriminate).
      revert H Hq Hn; generalize (pick 191 w); intros p H Hq Hn.
      destruct ks as [|k ks]; [cbn [length] in Hq; lia|].
      assert (k :: ks <> []) as Hne by discriminate.
      specialize (Hn Hne); lia.
    + apply (direction_keys cs ks Hf).
Qed.

Lemma policy_returns_directions_only_witness :
  exists direction w',
    next_command (Some "Quit") (Some food_north) (world_of [3%N]) =
      (Ok direction, w') /\
    In direction directions /\ direction <> "Eat" /\ direction <> "Quit".
Proof.
  apply (proj1 policy_returns_directions_only).
  intros d [= <-] _; exact food_north_is_surroundings.
Defined.

(* ------------------------------------------------------------------ *)
(** ** Outcome of a trial *)

Ltac quiet_events :=
  repeat (apply Forall_cons;
          [unfold quiet, not; repeat split; intros;
           match goal with
           | H : _ = _ |- False => cbn in H; discriminate H
           end|]);
  apply Forall_nil.

Lemma quiet_prefix (env : trial_env) : Forall (quiet env) (session_prefix env).
Proof. unfold session_prefix; cbn [app build_events launch_events session_opening]. quiet_events. Qed.

Lemma quiet_closing (env : trial_env) : Forall (quiet env) session_closing.
Proof. unfold session_closing; quiet_events. Qed.

Lemma quiet_status (env : trial_env) : Forall (quiet env) (status_events env).
Proof.
  unfold status_events.
  destruct (game_poll_late env) as [rc|]; [destruct (rc =? 0)|];
    cbn [app]; quiet_events.
Qed.

Lemma quiet_build_failed (env : trial_env) :
  Forall (quiet env) (build_events ++ [Print "Error building dose-response"]).
Proof. cbn [app build_events]; quiet_events. Qed.

Lemma quiet_premature (env : trial_env) :
  Forall (quiet env)
    (build_events ++ launch_events env ++ premature_events env).
Proof. cbn [app build_events launch_events premature_events]; quiet_events. Qed.

Lemma quiet_sent (env : trial_env) (events : list event) :
  Forall (quiet env) events -> sent events = [].
Proof.
  induction 1 as [|e l [_ [_ [_ He]]] _ IH]; [reflexivity|].
  destruct e; simpl; try exact IH.
  exfalso; eapply He; reflexivity.
Qed.

(** Case analysis on the answers that shape the replay phase. *)
Ltac replay_cases env :=
  unfold replay_result, files_ok, replay_verdict, replay_events,
    archive_events, archive_dir_ok in *;
  destruct (replay_rc env =? 0);
  destruct (target_isdir env);
  destruct (mkdir_ok env);
  destruct (copyfile_ok env);
  destruct (unlink_ok env).

Lemma replay_events_sent (env : trial_env) : sent (replay_events env) = [].
Proof. replay_cases env; reflexivity. Qed.

Lemma replay_events_no_timeout (env : trial_env) :
  ~ In timed_out (replay_events env).
Proof. replay_cases env; cbn; intuition discriminate. Qed.

Lemma replay_events_start (env : trial_env) :
  exists rest,
    replay_events env =
      Popen (replay_command (replay_file_name env)) :: rest.
Proof. replay_cases env; eexists; reflexivity. Qed.

Lemma in_quiet (env : trial_env) (events : list event) (e : event) :
  Forall (quiet env) events -> In e events -> quiet env e.
Proof. intros H; apply Forall_forall; exact H. Qed.

(** C1 as stated fails: the first reply times out, the game is killed, the
    replay runs and the trial is a success. *)
Lemma timed_out_trial_is_replayed :
  fst (test_run silent_game (world_of [0%N; 0%N])) = Ok "SUCCESS" /\
  log (snd (test_run silent_game (world_of [0%N; 0%N]))) =
    [ Print "Building dose-response";
      Call ["cargo"; "build"; "--features=remote"];
      TempFile "/tmp/tmpq3x";
      Print "Running the game with a replay destination: /tmp/tmpq3x";
      Popen (game_command "/tmp/tmpq3x");
      Sleep 1000;
      Print "Sending commands";
      Print "Connecting to the game...";
      Connect "ipc:///tmp/dose-response.ipc";
      Print "... connected.";
      Send (key_from_code "NumPad7");
      Print "ERROR: Timed out waiting for a response";
      Print "Closing the connection";
      SocketClose;
      ContextTerm;
      Print "The game ended, getting its status";
      Sleep 1000;
      Kill;
      Popen (replay_command "/tmp/tmpq3x");
      Wait;
      Print "Replay finished successfully. No need to store it.";
      Unlink "/tmp/tmpq3x" ].
Proof. split; reflexivity. Qed.

(** C1, amended: when a reply does not arrive within the bound, the session
    is aborted (the timeout is the last event of the loop, the connection is
    closed and no further key is sent) and [run_game] returns normally; the
    trial goes on as after any session: it is Unexpected if the recorded game
    has exited with a failure status, and otherwise the replay runs and its
    exit status classifies the trial, unless a file operation of the replay
    phase raises: then its [OSError] leaves [test_run]. *)
Theorem timeout_aborts_session_only (env : trial_env) (w w' : world)
    (r : result string) (events : list event) :
  test_run env w = (r, w') ->
  log w' = (log w ++ events)%list ->
  In timed_out events ->
  (exists before k rest,
     events = (before ++ [Send k; timed_out] ++ session_closing ++ rest)%list /\
     sent rest = []) /\
  r = (if game_failed env then Ok "UNEXPECTED" else replay_result env) /\
  (game_failed env = false ->
   In (Popen (replay_command (replay_file_name env))) events).
Proof.
  intros E Hlog Hin.
  destruct (test_run_trace env w) as [r0 [ev0 [w0 [E0 [Hlog0 Ht]]]]].
  rewrite E in E0; injection E0 as <- <-.
  rewrite Hlog in Hlog0; apply app_inv_head in Hlog0; subst ev0.
  assert (Hq : forall l, Forall (quiet env) l -> ~ In timed_out l).
  { intros l Hl H; apply (in_quiet env l _ Hl) in H.
    destruct H as [H _]; apply H; reflexivity. }
  inversion Ht as [Hc | Hc Hb | rc Hc Hb Hp | session e Hc Hb Hp Hs
                   | session Hc Hb Hp Hs Hg | session Hc Hb Hp Hs Hg];
    subst; clear Ht.
  - destruct Hin as [Hin|[]]; discriminate Hin.
  - exfalso; eapply Hq; [apply quiet_build_failed | exact Hin].
  - exfalso; eapply Hq; [apply quiet_premature | exact Hin].
  - exfalso; apply in_app_or in Hin; destruct Hin as [Hin|Hin].
    + eapply Hq; [apply quiet_prefix | exact Hin].
    + destruct (session_trace_timed_out _ _ _ _ _ Hs Hin) as [Hr _].
      discriminate Hr.
  - rewrite Hg.
    assert (Hsess : In timed_out session).
    { rewrite !in_app_iff in Hin.
      destruct Hin as [Hin|[Hin|[Hin|Hin]]]; [exfalso| exact Hin |exfalso..].
      - eapply Hq; [apply quiet_prefix | exact Hin].
      - eapply Hq; [apply quiet_closing | exact Hin].
      - eapply Hq; [apply quiet_status | exact Hin]. }
    destruct (session_trace_timed_out _ _ _ _ _ Hs Hsess)
      as [_ [before [k ->]]].
    split; [|split; [reflexivity | discriminate]].
    exists (session_prefix env ++ before)%list, k, (status_events env).
    split; [rewrite <- !app_assoc; reflexivity|].
    apply (quiet_sent env), quiet_status.
  - rewrite Hg.
    assert (Hsess : In timed_out session).
    { rewrite !in_app_iff in Hin.
      destruct Hin as [Hin|[Hin|[Hin|[Hin|Hin]]]];
        [exfalso| exact Hin |exfalso..].
      - eapply Hq; [apply quiet_prefix | exact Hin].
      - eapply Hq; [apply quiet_closing | exact Hin].
      - eapply Hq; [apply quiet_status | exact Hin].
      - eapply replay_events_no_timeout; exact Hin. }
    destruct (session_trace_timed_out _ _ _ _ _ Hs Hsess)
      as [_ [before [k ->]]].
    split; [|split; [reflexivity|]].
    + exists (session_prefix env ++ before)%list, k,
        (status_events env ++ replay_events env)%list.
      split; [rewrite <- !app_assoc; reflexivity|].
      rewrite sent_app, (quiet_sent env _ (quiet_status env)).
      apply replay_events_sent.
    + intros _; rewrite !in_app_iff; do 4 right.
      destruct (replay_events_start env) as [rest ->]; left; reflexivity.
Qed.

Lemma timeout_aborts_session_only_witness :
  (exists before k rest,
     silent_events =
       (before ++ [Send k; timed_out] ++ session_closing ++ rest)%list /\
     sent rest = []) /\
  Ok "SUCCESS" =
    (if game_failed silent_game then Ok "UNEXPECTED"
     else replay_result silent_game) /\
  (game_failed silent_game = false ->
   In (Popen (replay_command (replay_file_name silent_game))) silent_events).
Proof.
  apply (timeout_aborts_session_only silent_game (world_of [0%N; 0%N])
           (snd (test_run silent_game (world_of [0%N; 0%N])))
           (Ok "SUCCESS") silent_events).
  - vm_compute; reflexivity.
  - vm_compute; reflexivity.
  - do 11 right; left; reflexivity.
Defined.

Lemma collect_app {A} (kind : event -> option A) (l1 l2 : list event) :
  collect kind (l1 ++ l2) = (collect kind l1 ++ collect kind l2)%list.
Proof.
  induction l1 as [|e l1 IH]; simpl; [reflexivity|].
  destruct (kind e); simpl; rewrite IH; reflexivity.
Qed.

Lemma collect_session {A} (kind : event -> option A) (session : list event) :
  (forall e, session_event e -> kind e = None) ->
  Forall session_event session ->
  collect kind session = [].
Proof.
  intros Hk; induction 1 as [|e l He _ IH]; simpl; [reflexivity|].
  rewrite (Hk e He); exact IH.
Qed.

Lemma unlinked_session (net : socket_env) (max_turns turns : Z)
    (session : list event) (r : result unit) :
  session_trace net max_turns turns session r -> unlinked session = [].
Proof.
  intros H; apply collect_session; [|eapply session_trace_events; exact H].
  intros []; simpl; tauto.
Qed.

Lemma launched_session (net : socket_env) (max_turns turns : Z)
    (session : list event) (r : result unit) :
  session_trace net max_turns turns session r -> launched session = [].
Proof.
  intros H; apply collect_session; [|eapply session_trace_events; exact H].
  intros []; simpl; tauto.
Qed.

Lemma killed_session (net : socket_env) (max_turns turns : Z)
    (session : list event) (r : result unit) :
  session_trace net max_turns turns session r -> killed session = [].
Proof.
  intros H; apply collect_session; [|eapply session_trace_events; exact H].
  intros []; simpl; tauto.
Qed.

(** Case analysis on what the environment of a trial answers, for goals
    made of the fixed parts of a trial's log. *)
Ltac trial_parts env :=
  unfold replayed, replay_result, files_ok, replay_verdict, game_failed,
    session_prefix, status_events, replay_events, archive_events,
    archive_dir_ok in *;
  destruct (game_poll_late env) as [?rc|];
  try match goal with rc : Z |- _ => destruct (rc =? 0) end;
  destruct (replay_rc env =? 0);
  destruct (target_isdir env);
  destruct (mkdir_ok env);
  destruct (copyfile_ok env);
  destruct (unlink_ok env);
  try discriminate; try reflexivity.





Lemma test_run_verdict (env : trial_env) (w : world) :
  In (fst (test_run env w)) [Ok "SUCCESS"; Ok "FAILURE"; Ok "UNEXPECTED"] \/
  exists e, fst (test_run env w) = Raise e.
Proof.
  destruct (test_run_trace env w) as [r [events [w' [E [_ Ht]]]]].
  rewrite E; cbn [fst].
  inversion Ht; subst; try (left; simpl; tauto); try (right; eauto; fail).
  unfold replay_result, replay_verdict.
  destruct (files_ok env); [left | right; eauto].
  destruct (replay_rc env =? 0); simpl; tauto.
Qed.

Lemma successes_le (outs : list (result string)) :
  (successes outs <= length outs)%nat.
Proof. apply filter_length_le. Qed.

Lemma successes_all (outs : list (result string)) :
  successes outs = length outs -> Forall (eq (Ok "SUCCESS")) outs.
Proof.
  unfold successes; induction outs as [|o outs IH]; simpl; [constructor|].
  pose proof (filter_length_le is_success outs) as Hle.
  destruct (is_success o) eqn:E; simpl; intros H; [|lia].
  constructor; [|apply IH; lia].
  destruct o as [v|e]; [|discriminate].
  apply String.eqb_eq in E; subst; reflexivity.
Qed.

Lemma all_successes (outs : list (result string)) :
  Forall (eq (Ok "SUCCESS")) outs -> successes outs = length outs.
Proof.
  unfold successes; induction 1 as [|o outs <- _ IH]; simpl; [reflexivity|].
  rewrite IH; reflexivity.
Qed.

Section Batch.
Variable env : batch_env.

(** One pass of the loop. *)
Lemma run_tests_cons (i : Z) (rest : list Z) (results : dict Z)
    (last : option Z) (w : world) :
  run_tests env (i :: rest) results last w =
    match started env i w with
    | (Ok result, w') =>
        match dict_get results result with
        | Ok count =>
            run_tests env rest (dict_set results result (count + 1))
              (Some i) w'
        | Raise e => (Raise e, results, Some i, w')
        end
    | (Raise e, w') => (Raise e, results, Some i, w')
    end.
Proof.
  cbn [run_tests]; unfold started, bind.
  rewrite emit_after.
  destruct (sigint env i); [reflexivity|].
  destruct (test_run (trial env i) _) as [[v|e] w2]; [|reflexivity].
  unfold lift; destruct (dict_get results v); reflexivity.
Qed.

(** The loop keeps the three counters, adds the successes to the first,
    and ends early exactly on the exception that ends [outcomes]. *)
Lemma run_tests_spec (indices : list Z) :
  forall (s f u : Z) (last : option Z) (w : world),
    exists r f' u' last' w',
      run_tests env indices
        [("SUCCESS", s); ("FAILURE", f); ("UNEXPECTED", u)] last w =
        (r, [("SUCCESS", s + Z.of_nat (successes (outcomes env indices w)));
             ("FAILURE", f'); ("UNEXPECTED", u')], last', w') /\
      match r with
      | Ok _ =>
          length (outcomes env indices w) = length indices /\
          forall e, ~ In (Raise e) (outcomes env indices w)
      | Raise e =>
          In (Raise e) (outcomes env indices w) /\
          (length (outcomes env indices w) <= length indices)%nat
      end.
Proof.
  induction indices as [|i rest IH]; intros s f u last w.
  - exists (Ok tt), f, u, last, w; split.
    + cbn [run_tests outcomes successes filter length Z.of_nat].
      rewrite Z.add_0_r; reflexivity.
    + split; [reflexivity | intros e []].
  - rewrite run_tests_cons; cbn [outcomes].
    assert (Hv : In (fst (started env i w))
                   [Ok "SUCCESS"; Ok "FAILURE"; Ok "UNEXPECTED"] \/
                 exists e, fst (started env i w) = Raise e).
    { unfold started, bind; rewrite emit_after.
      destruct (sigint env i); [right; eexists; reflexivity|].
      pose proof (test_run_verdict (trial env i)
                    (after w [Print ("Running test number "
                                     ++ str_of_int (i + 1))])) as H.
      destruct (test_run (trial env i) _) as [r w2]; exact H. }
    destruct (started env i w) as [[v|e] w2]; cbn [fst] in Hv.
    2:{ exists (Raise e), f, u, (Some i), w2; split.
        - cbn [successes filter is_success length Z.of_nat].
          rewrite Z.add_0_r; reflexivity.
        - split; [left; reflexivity | cbn [length]; lia]. }
    destruct Hv as [Hv|[e Hv]]; [|discriminate].
    assert (Hstep : forall s1 f1 u1 (b : bool),
              successes (Ok v :: outcomes env rest w2) =
                ((if b then 1 else 0) + successes (outcomes env rest w2))%nat ->
              s1 = s + (if b then 1 else 0) ->
              exists r f' u' last' w',
                run_tests env rest
                  [("SUCCESS", s1); ("FAILURE", f1); ("UNEXPECTED", u1)]
                  (Some i) w2 =
                  (r, [("SUCCESS",
                        s + Z.of_nat (successes
                                        (Ok v :: outcomes env rest w2)));
                       ("FAILURE", f'); ("UNEXPECTED", u')], last', w') /\
                match r with
                | Ok _ =>
                    length (Ok v :: outcomes env rest w2) = length (i :: rest) /\
                    forall e, ~ In (Raise e) (Ok v :: outcomes env rest w2)
                | Raise e =>
                    In (Raise e) (Ok v :: outcomes env rest w2) /\
                    (length (Ok v :: outcomes env rest w2)
                     <= length (i :: rest))%nat
                end).
    { intros s1 f1 u1 b Hs ->.
      destruct (IH (s + (if b then 1 else 0)) f1 u1 (Some i) w2)
        as [r [f' [u' [last' [w' [E Hr]]]]]].
      exists r, f', u', last', w'; split.
      - rewrite E, Hs.
        generalize (successes (outcomes env rest w2)); intros n.
        destruct b.
        + replace (s + 1 + Z.of_nat n) with (s + Z.of_nat (1 + n)) by lia.
          reflexivity.
        + replace (s + 0 + Z.of_nat n) with (s + Z.of_nat (0 + n)) by lia.
          reflexivity.
      - destruct r; destruct Hr as [H1 H2]; cbn [length].
        + split; [lia|].
          intros e [H|H]; [discriminate | eapply H2; exact H].
        + split; [right; exact H1 | lia]. }
    simpl in Hv; destruct Hv as [Hv|[Hv|[Hv|[]]]]; injection Hv as <-.
    + apply (Hstep (s + 1) f u true); reflexivity.
    + apply (Hstep s (f + 1) u false); [reflexivity | lia].
    + apply (Hstep s f (u + 1) false); [reflexivity | lia].
Qed.
End Batch.

Lemma range_length (n : Z) : length (range n) = Z.to_nat n.
Proof. unfold range; rewrite length_map, length_seq; reflexivity. Qed.

Lemma raise_not_success (outs : list (result string)) (e : exn) :
  In (Raise e) outs -> (successes outs < length outs)%nat.
Proof.
  unfold successes; induction outs as [|o outs IH]; simpl; [contradiction|].
  pose proof (filter_length_le is_success outs) as Hle.
  intros [->|H]; simpl; [lia|].
  specialize (IH H); destruct (is_success o); simpl; lia.
Qed.

(** A batch whose trials all come back was not interrupted. *)
Lemma outcomes_no_interrupt (env : batch_env) (indices : list Z) :
  forall w,
    length (outcomes env indices w) = length indices ->
    (forall e, ~ In (Raise e) (outcomes env indices w)) ->
    forall i, In i indices -> sigint env i = false.
Proof.
  induction indices as [|j rest IH]; intros w Hlen Hok i Hin; [contradiction|].
  cbn [outcomes] in Hlen, Hok.
  assert (Hj : sigint env j = true ->
               exists w', started env j w = (Raise KeyboardInterrupt, w')).
  { intros Hs; unfold started, bind; rewrite emit_after, Hs.
    eexists; reflexivity. }
  destruct (sigint env j) eqn:Ej.
  - destruct (Hj eq_refl) as [w' E]; rewrite E in Hok.
    exfalso; eapply Hok; left; reflexivity.
  - destruct Hin as [<-|Hin]; [exact Ej|].
    destruct (started env j w) as [[v|e] w'].
    + apply (IH w'); [simpl in Hlen; lia | | exact Hin].
      intros e H; eapply Hok; right; exact H.
    + exfalso; eapply Hok; left; reflexivity.
Qed.

(** The exit status, from what the loop leaves. *)
Lemma main_status (test_count : Z) (env : batch_env) (w : world) :
  exists r : result unit,
    fst (main test_count env w) =
      match r with
      | Ok _ | Raise KeyboardInterrupt =>
          if Z.of_nat (successes (outcomes env (range test_count) w))
             =? test_count
          then 0 else 1
      | Raise _ => 1
      end /\
    match r with
    | Ok _ =>
        length (outcomes env (range test_count) w) = Z.to_nat test_count /\
        forall e, ~ In (Raise e) (outcomes env (range test_count) w)
    | Raise e =>
        In (Raise e) (outcomes env (range test_count) w) /\
        (length (outcomes env (range test_count) w)
         <= Z.to_nat test_count)%nat
    end.
Proof.
  destruct (run_tests_spec env (range test_count) 0 0 0 None w)
    as [r [f' [u' [last' [w' [E Hr]]]]]].
  rewrite range_length in Hr.
  exists r; split; [|exact Hr].
  unfold main; rewrite E; cbn [Z.add].
  destruct r as [[]|e]; [|destruct e]; try reflexivity;
    unfold bind; rewrite !emit_after; unfold lift, ret;
    cbn [dict_get dict_find String.eqb Ascii.eqb Bool.eqb andb];
    destruct (_ =? test_count); reflexivity.
Qed.

(** C9: the exit status is 0 or 1, and it is 0 exactly when the batch ran
    [test_count] trials and each of them returned SUCCESS; in particular it
    is 1 whenever one of the requested trials is interrupted. *)
Theorem exit_status_iff_all_success (test_count : Z) (env : batch_env)
    (w : world) :
  let outs := outcomes env (range test_count) w in
  let status := fst (main test_count env w) in
  (status = 0 \/ status = 1) /\
  (status = 0 <->
   Z.of_nat (length outs) = test_count /\ Forall (eq (Ok "SUCCESS")) outs) /\
  (forall i, 0 <= i < test_count -> sigint env i = true -> status = 1).
Proof.
  intros outs status.
  destruct (main_status test_count env w) as [r [Hs Hr]].
  fold outs in Hs, Hr; fold status in Hs.
  pose proof (successes_le outs) as Hle.
  assert (H01 : status = 0 \/ status = 1).
  { rewrite Hs; destruct r as [[]|[]];
      try (right; reflexivity);
      destruct (_ =? test_count); auto. }
  assert (Hiff : status = 0 <->
                 Z.of_nat (length outs) = test_count /\
                 Forall (eq (Ok "SUCCESS")) outs).
  { split.
    - intros H0; rewrite Hs in H0.
      assert (Hn : Z.of_nat (successes outs) = test_count).
      { destruct r as [[]|[]]; try discriminate H0;
          destruct (Z.eqb_spec (Z.of_nat (successes outs)) test_count);
          [assumption | discriminate H0 | assumption | discriminate H0]. }
      destruct r as [[]|e].
      + destruct Hr as [Hlen _].
        assert (successes outs = length outs) by lia.
        split; [lia | apply successes_all; assumption].
      + destruct Hr as [Hin Hlen].
        pose proof (raise_not_success outs e Hin); lia.
    - intros [Hlen Hall].
      pose proof (all_successes outs Hall) as Hn.
      rewrite Hs; destruct r as [[]|e].
      + rewrite Hn, Hlen, Z.eqb_refl; reflexivity.
      + destruct Hr as [Hin _].
        rewrite Forall_forall in Hall; specialize (Hall _ Hin).
        discriminate Hall. }
  split; [exact H01|]; split; [exact Hiff|].
  intros i Hi Hint.
  destruct H01 as [H0|H1]; [exfalso|exact H1].
  apply Hiff in H0; destruct H0 as [Hlen Hall].
  assert (sigint env i = false); [|congruence].
  apply (outcomes_no_interrupt env (range test_count) w).
  - rewrite range_length; fold outs; lia.
  - intros e Hin; fold outs in Hin.
    rewrite Forall_forall in Hall; specialize (Hall _ Hin); discriminate Hall.
  - apply in_range; exact Hi.
Qed.

Lemma exit_status_iff_all_success_witness :
  fst (main 5 interrupted_batch (world_of [])) = 1.
Proof.
  apply (proj2 (proj2 (exit_status_iff_all_success 5 interrupted_batch
                         (world_of []))) 1).
  - lia.
  - reflexivity.
Defined.

Example all_success_exits_0 :
  fst (main 3 {| trial := fun _ => silent_game; sigint := fun _ => false |}
         (world_of [])) = 0.
Proof. vm_compute; reflexivity. Qed.

Example one_failure_exits_1 :
  outcomes mixed_batch (range 3) (world_of []) =
    [Ok "SUCCESS"; Ok "FAILURE"; Ok "SUCCESS"] /\
  fst (main 3 mixed_batch (world_of [])) = 1.
Proof. split; vm_compute; reflexivity. Qed.

Example no_trial_requested_exits_0 :
  fst (main 0 mixed_batch (world_of [])) = 0.
Proof. vm_compute; reflexivity. Qed.

(* ------------------------------------------------------------------ *)
(** ** Termination of the session loop *)

(** [run_game] never runs out of fuel: it returns, or raises one of the
    exceptions of the classifier. *)
Lemma run_game_returns (net : socket_env) (w : world) :
  fst (run_game net w) = Ok tt \/
  exists e, fst (run_game net w) = Raise e /\
            In e [AssertionError; UnboundLocalError; IndexError].
Proof.
  destruct (run_game_trace net w) as [r [events [w' [E [Ht _]]]]].
  rewrite E; cbn [fst].
  eapply session_trace_result; exact Ht.
Qed.

(** More fuel than the turns that are left changes nothing. *)
Lemma game_loop_fuel (net : socket_env) (max_turns : Z) (fuel : nat) :
  forall (turns : Z) (previous_command : option string)
         (display : option (dict string)) (w : world),
    (forall d, display = Some d -> is_surroundings d) ->
    (1 <= fuel)%nat -> Z.of_nat fuel > max_turns - turns ->
    game_loop (S fuel) net max_turns turns previous_command display w =
    game_loop fuel net max_turns turns previous_command display w.
Proof.
  induction fuel as [|fuel IH]; intros turns prev display w Hd H1 Hfuel; [lia|].
  destruct (game_loop_step (S fuel) net max_turns turns prev display w Hd)
    as [[Ht E]|[Ht [c [k [w1 [Ec [Hc [Ek [Hlog E]]]]]]]]];
    destruct (game_loop_step fuel net max_turns turns prev display w Hd)
      as [[Ht' E']|[Ht' [c' [k' [w1' [Ec' [Hc' [Ek' [Hlog' E']]]]]]]]];
    try lia; rewrite E, E'; [reflexivity|].
  rewrite Ec in Ec'; injection Ec' as <- <-.
  rewrite Ek in Ek'; injection Ek' as <-.
  destruct (writable net (turns + 1)); [|reflexivity].
  destruct (readable net (turns + 1)) as [reply|]; [|reflexivity].
  destruct (surroundings_from_message reply) as [d|e] eqn:Es; [|reflexivity].
  apply IH; [|lia|lia].
  intros d' [= <-].
  eapply surroundings_from_message_is_surroundings; exact Es.
Qed.

(* ------------------------------------------------------------------ *)
(** * Further properties *)

(** ** The steps of the policy *)

Lemma directions_NoDup : NoDup directions.
Proof.
  unfold directions.
  repeat (apply NoDup_cons;
          [simpl; intros H; repeat (destruct H as [H|H]; try discriminate H);
           exact H|]).
  apply NoDup_nil.
Qed.

Lemma directions_where_nil (keep : string -> bool) (display : dict string) :
  (forall v, In v (map snd display) -> keep v = false) ->
  directions_where keep display = [].
Proof.
  unfold directions_where.
  induction display as [|[k v] d IH]; intros H; [reflexivity|].
  cbn [filter snd]; rewrite (H v (or_introl eq_refl)).
  apply IH; intros v' Hv'; apply H; right; exact Hv'.
Qed.

Lemma no_tile_where (kind : string) (display : dict string) :
  no_tile kind display ->
  directions_where (fun tile => String.eqb tile kind) display = [].
Proof.
  intros H; apply directions_where_nil; intros v Hv.
  apply String.eqb_neq; intros ->; exact (H Hv).
Qed.

Lemma has_tile_where (kind : string) (display : dict string) (k : string) :
  NoDup (dict_keys display) ->
  (In k (directions_where (fun tile => String.eqb tile kind) display) <->
   has_tile kind display k = true).
Proof.
  intros Hnd; rewrite directions_where_In by exact Hnd.
  unfold has_tile; split.
  - intros [t [-> Ht]]; exact Ht.
  - destruct (dict_find k display) as [t|]; [eauto | discriminate].
Qed.

(** Without food and dose the policy is its momentum step. *)
Lemma forage_plain (previous_command : string) (display : dict string) :
  no_tile "food" display -> no_tile "dose" display ->
  forage previous_command display =
    if str_in previous_command directions then
      (u <- random ;;
       if Qle_bool u (3 # 4) then
         tile <- lift (dict_get display previous_command) ;;
         if walkable tile then ret previous_command
         else
           preferred <- lift (preferred_directions display) ;;
           match preferred with
           | _ :: _ => choice preferred
           | [] => wander display
           end
       else wander display)%io
    else wander display.
Proof.
  intros Hf Hd; unfold forage.
  rewrite (no_tile_where "food" display Hf).
  rewrite (no_tile_where "dose" display Hd).
  reflexivity.
Qed.

Lemma random_momentum (w : world) :
  exists u, random w = (Ok u, step w) /\ Qle_bool u (3 # 4) = momentum w.
Proof.
  eexists; split; [reflexivity|].
  unfold Qle_bool, momentum; cbn [Qnum Qden].
  change (2 ^ 53)%positive with 9007199254740992%positive.
  change (2 ^ 53)%N with 9007199254740992%N.
  change (3 * 2 ^ 51)%N with 6755399441055744%N.
  generalize (raw (gen w) mod 9007199254740992)%N; intros a.
  destruct (Z.leb_spec (Z.of_N a * 4) (3 * 9007199254740992));
    destruct (N.leb_spec a 6755399441055744); try reflexivity; lia.
Qed.

Lemma surroundings_nonempty (display : dict string) :
  is_surroundings display -> display <> [].
Proof.
  intros [_ H] ->.
  apply (proj2 (H "N")); simpl; tauto.
Qed.

Lemma direction_nonempty (c : string) : In c directions -> c <> "".
Proof.
  simpl; intros H ->.
  repeat (destruct H as [H|H]; [discriminate H|]); exact H.
Qed.

(** [next_command] on a Surroundings and a non-empty previous command. *)
Lemma next_command_forage (previous_command : string)
    (display : dict string) :
  previous_command <> "" -> display <> [] ->
  next_command (Some previous_command) (Some display) =
    forage previous_command display.
Proof.
  intros Hp Hd; unfold next_command.
  destruct display as [|item d]; [congruence|].
  destruct previous_command as [|c p]; [congruence|].
  reflexivity.
Qed.

(** X1: on the first turn, that is without a display (none, or an empty
    one) or without a previous command (none, or an empty one), the policy
    returns the direction at an index drawn below 8 in the list of the eight
    directions, which has no repetition: a uniform draw among the eight. *)
Theorem next_command_first_turn (previous_command : option string)
    (display : option (dict string)) (w : world) :
  display = None \/ display = Some [] \/
  previous_command = None \/ previous_command = Some "" ->
  next_command previous_command display w =
    (Ok (nth (pick 8 w) directions ""), step w) /\
  (pick 8 w < 8)%nat /\
  NoDup directions.
Proof.
  intros H.
  destruct (choice_spec directions "" w) as [Hc Hlt]; [discriminate|].
  split; [|split; [exact Hlt | exact directions_NoDup]].
  unfold next_command.
  destruct H as [->|[->|[->| ->]]]; try exact Hc;
    destruct display as [[|item d]|]; exact Hc.
Qed.

Lemma next_command_first_turn_witness :
  next_command (Some "N") None (world_of [11%N]) =
    (Ok "W", step (world_of [11%N])).
Proof.
  exact (proj1 (next_command_first_turn (Some "N") None (world_of [11%N])
                  (or_introl eq_refl))).
Defined.

(** X2: without food in sight but with a dose in at least one direction,
    the policy returns the entry of the list of dose directions at the index
    drawn below its length; the list holds each dose direction exactly once
    and no other direction. *)
Theorem next_command_dose (previous_command : string) (display : dict string)
    (w : world) :
  previous_command <> "" ->
  is_surroundings display ->
  no_tile "food" display ->
  (exists direction, dict_get display direction = Ok "dose") ->
  let dose_directions :=
    directions_where (fun tile => String.eqb tile "dose") display in
  let n := length dose_directions in
  next_command (Some previous_command) (Some display) w =
    (Ok (nth (pick n w) dose_directions ""), step w) /\
  (pick n w < n)%nat /\
  has_tile "dose" display (nth (pick n w) dose_directions "") = true /\
  forall direction,
    count_occ string_dec dose_directions direction =
      if has_tile "dose" display direction then 1%nat else 0%nat.
Proof.
  intros Hprev Hs Hfood [d0 Hd0] doses n.
  pose proof Hs as [Hnd Hkeys].
  assert (Hin : forall k, In k doses <-> has_tile "dose" display k = true)
    by (intros k; apply has_tile_where; exact Hnd).
  assert (Hne : doses <> []).
  { assert (H : In d0 doses).
    { apply Hin; unfold has_tile; unfold dict_get in Hd0.
      destruct (dict_find d0 display); [|discriminate].
      injection Hd0 as ->; reflexivity. }
    intros E; rewrite E in H; exact H. }
  destruct (choice_spec doses "" w Hne) as [Hc Hlt].
  split; [|split; [exact Hlt|split]].
  - rewrite next_command_forage
      by (try exact Hprev; apply surroundings_nonempty; exact Hs).
    unfold forage; rewrite (no_tile_where "food" display Hfood).
    fold doses; destruct doses; [congruence | exact Hc].
  - apply Hin, nth_In, Hlt.
  - intros k; destruct (has_tile "dose" display k) eqn:E.
    + apply NoDup_count_occ'; [|apply Hin; exact E].
      apply directions_where_NoDup; exact Hnd.
    + apply count_occ_not_In; rewrite Hin, E; discriminate.
Qed.

Lemma directions_keys_surroundings (display : dict string) :
  dict_keys display = directions -> is_surroundings display.
Proof.
  intros H; unfold is_surroundings; rewrite H.
  split; [exact directions_NoDup | tauto].
Qed.

Lemma next_command_dose_witness :
  next_command (Some "N") (Some dose_east) (world_of [3%N]) =
    (Ok "SW", step (world_of [3%N])).
Proof.
  assert (H1 : "N" <> "") by discriminate.
  assert (H2 : is_surroundings dose_east)
    by (apply directions_keys_surroundings; reflexivity).
  assert (H3 : no_tile "food" dose_east)
    by (unfold no_tile; simpl; intuition discriminate).
  assert (H4 : exists direction, dict_get dose_east direction = Ok "dose")
    by (exists "E"; reflexivity).
  exact (proj1 (next_command_dose "N" dose_east (world_of [3%N])
                  H1 H2 H3 H4)).
Defined.

Lemma dict_get_value {V} (d : dict V) (k : string) (v : V) :
  dict_get d k = Ok v -> In v (map snd d).
Proof.
  unfold dict_get; destruct (dict_find k d) as [v'|] eqn:E; [|discriminate].
  intros [= <-]; apply dict_find_item in E.
  change v' with (snd (k, v')); apply in_map; exact E.
Qed.

Lemma filter_res_sound {A} (keep : A -> result bool) (l l' : list A) :
  filter_res keep l = Ok l' -> forall a, In a l' -> keep a = Ok true.
Proof.
  revert l'; induction l as [|b l IH]; intros l'; simpl.
  - intros [= <-] a [].
  - destruct (keep b) as [[|]|e] eqn:Eb; simpl; try discriminate;
      destruct (filter_res keep l) as [rest|e]; simpl; try discriminate;
      intros [= <-] a Ha.
    + destruct Ha as [<-|Ha]; [exact Eb | eapply IH; eauto].
    + eapply IH; eauto.
Qed.

Lemma filter_res_none {A} (keep : A -> result bool) (l : list A) :
  (forall a, In a l -> keep a = Ok false) -> filter_res keep l = Ok [].
Proof.
  induction l as [|b l IH]; intros H; simpl; [reflexivity|].
  rewrite (H b (or_introl eq_refl)); simpl.
  rewrite IH by (intros a Ha; apply H; right; exact Ha); reflexivity.
Qed.

Section Walking.
Variable display : dict string.
Hypothesis display_ok : is_surroundings display.

Lemma preferred_walkable (l : list string) :
  preferred_directions display = Ok l ->
  forall d, In d l -> walkable_at display d = true.
Proof.
  intros H d Hd; unfold preferred_directions in H.
  pose proof (filter_res_sound _ _ _ H d Hd) as Hk; cbv beta in Hk.
  unfold walkable_at, dict_get in *.
  destruct (dict_find d display) as [tile|]; [|discriminate].
  simpl in Hk; injection Hk as ->; reflexivity.
Qed.

Lemma wander_walkable (w : world) :
  (exists direction, walkable_at display direction = true) ->
  exists d, wander display w = (Ok d, step w) /\ walkable_at display d = true.
Proof.
  intros [d0 H0]; unfold wander.
  destruct display_ok as [Hnd _].
  assert (Hin : forall k, In k (directions_where walkable display) <->
                          walkable_at display k = true).
  { intros k; rewrite directions_where_In by exact Hnd.
    unfold walkable_at; split.
    - intros [t [-> Ht]]; exact Ht.
    - destruct (dict_find k display) as [t|]; [eauto | discriminate]. }
  destruct (directions_where walkable display) as [|a l] eqn:E.
  - exfalso; apply (proj2 (Hin d0)) in H0; exact H0.
  - destruct (choice_in (a :: l) w) as [b [Hb Hb']]; [discriminate|].
    exists b; split; [exact Hb | apply Hin; exact Hb'].
Qed.

Lemma wander_enclosed (w : world) :
  (forall v, In v (map snd display) -> walkable v = false) ->
  wander display w = (Ok (nth (pick 8 w) directions ""), step w).
Proof.
  intros H; unfold wander.
  rewrite (directions_where_nil walkable display H).
  apply choice_spec; discriminate.
Qed.
End Walking.

(** X3: going in a direction whose tile is still empty or a monster, with
    neither food nor dose in sight, the policy keeps the direction when the
    draw of [random.random()] is at most 0.75 (one draw, nothing else), and
    otherwise picks among the walkable directions as on any other turn. *)
Theorem momentum_keeps_direction (previous_command tile : string)
    (display : dict string) (w : world) :
  In previous_command directions ->
  is_surroundings display ->
  no_tile "food" display -> no_tile "dose" display ->
  dict_get display previous_command = Ok tile ->
  walkable tile = true ->
  next_command (Some previous_command) (Some display) w =
    if momentum w then (Ok previous_command, step w)
    else wander display (step w).
Proof.
  intros Hp Hs Hf Hd Ht Hw.
  rewrite next_command_forage
    by (first [apply direction_nonempty; exact Hp
              | apply surroundings_nonempty; exact Hs]).
  rewrite (forage_plain _ _ Hf Hd).
  rewrite (proj2 (str_in_In _ _) Hp).
  destruct (random_momentum w) as [u [Eu Em]].
  unfold bind at 1; rewrite Eu, Em.
  destruct (momentum w); [|reflexivity].
  unfold bind, lift; rewrite Ht, Hw; reflexivity.
Qed.

Lemma momentum_keeps_direction_witness :
  next_command (Some "S") (Some north_blocked) (world_of [0%N]) =
    (Ok "S", step (world_of [0%N])).
Proof.
  assert (H1 : In "S" directions) by (simpl; tauto).
  assert (H2 : is_surroundings north_blocked)
    by (apply directions_keys_surroundings; reflexivity).
  assert (H3 : no_tile "food" north_blocked)
    by (unfold no_tile; simpl; intuition discriminate).
  assert (H4 : no_tile "dose" north_blocked)
    by (unfold no_tile; simpl; intuition discriminate).
  exact (momentum_keeps_direction "S" "empty" north_blocked (world_of [0%N])
           H1 H2 H3 H4 eq_refl eq_refl).
Defined.

(** X4: with a previous command, neither food nor dose in sight, and at
    least one direction whose tile is empty or a monster, the policy returns
    a direction whose tile is empty or a monster, whatever the draws: it
    never walks into a wall or an unknown tile when it can avoid it. *)
Theorem next_command_walks (previous_command : string)
    (display : dict string) (w : world) :
  previous_command <> "" ->
  is_surroundings display ->
  no_tile "food" display -> no_tile "dose" display ->
  (exists direction, walkable_at display direction = true) ->
  exists direction w',
    next_command (Some previous_command) (Some display) w =
      (Ok direction, w') /\
    walkable_at display direction = true.
Proof.
  intros Hp Hs Hf Hd Hex.
  rewrite next_command_forage
    by (first [exact Hp | apply surroundings_nonempty; exact Hs]).
  rewrite (forage_plain _ _ Hf Hd).
  assert (Hw : forall w0, exists direction w',
             wander display w0 = (Ok direction, w') /\
             walkable_at display direction = true).
  { intros w0; destruct (wander_walkable display Hs w0 Hex) as [d [E H]].
    exists d, (step w0); split; assumption. }
  destruct (str_in previous_command directions) eqn:Ein; [|apply Hw].
  apply str_in_In in Ein.
  destruct (random_momentum w) as [u [Eu Em]].
  unfold bind at 1; rewrite Eu.
  destruct (Qle_bool u (3 # 4)); [|apply Hw].
  destruct (display_get display Hs previous_command Ein) as [tile Et].
  unfold bind at 1, lift at 1; rewrite Et.
  destruct (walkable tile) eqn:Ew.
  { exists previous_command, (step w); split; [reflexivity|].
    unfold walkable_at; unfold dict_get in Et.
    destruct (dict_find previous_command display); [|discriminate].
    injection Et as ->; exact Ew. }
  destruct (preferred_directions_ok display Hs) as [pref [Epref _]].
  unfold bind, lift; rewrite Epref.
  destruct pref as [|a l]; [apply Hw|].
  destruct (choice_in (a :: l) (step w)) as [b [Hb Hin]]; [discriminate|].
  exists b, (step (step w)); split; [exact Hb|].
  eapply preferred_walkable; eassumption.
Qed.

Lemma next_command_walks_witness :
  exists direction w',
    next_command (Some "N") (Some north_blocked) (world_of [0%N; 1%N]) =
      (Ok direction, w') /\
    walkable_at north_blocked direction = true.
Proof.
  assert (H1 : "N" <> "") by discriminate.
  assert (H2 : is_surroundings north_blocked)
    by (apply directions_keys_surroundings; reflexivity).
  assert (H3 : no_tile "food" north_blocked)
    by (unfold no_tile; simpl; intuition discriminate).
  assert (H4 : no_tile "dose" north_blocked)
    by (unfold no_tile; simpl; intuition discriminate).
  assert (H5 : exists direction, walkable_at north_blocked direction = true)
    by (exists "S"; reflexivity).
  exact (next_command_walks "N" north_blocked (world_of [0%N; 1%N])
           H1 H2 H3 H4 H5).
Defined.

(** X5: fully enclosed (no tile is food, dose, empty or a monster), the
    policy returns a uniform draw among all eight directions; when the
    previous command is a direction, the draw of the momentum step has been
    consumed first, whatever its value. *)
Theorem next_command_enclosed (previous_command : string)
    (display : dict string) (w : world) :
  previous_command <> "" ->
  is_surroundings display ->
  no_tile "food" display -> no_tile "dose" display ->
  (forall tile, In tile (map snd display) -> walkable tile = false) ->
  let w1 := if str_in previous_command directions then step w else w in
  next_command (Some previous_command) (Some display) w =
    (Ok (nth (pick 8 w1) directions ""), step w1) /\
  (pick 8 w1 < 8)%nat.
Proof.
  intros Hp Hs Hf Hd Hwall w1.
  split; [|apply pick_below; discriminate].
  rewrite next_command_forage
    by (first [exact Hp | apply surroundings_nonempty; exact Hs]).
  rewrite (forage_plain _ _ Hf Hd); unfold w1.
  destruct (str_in previous_command directions) eqn:Ein;
    [|apply wander_enclosed; exact Hwall].
  apply str_in_In in Ein.
  destruct (random_momentum w) as [u [Eu Em]].
  unfold bind at 1; rewrite Eu.
  destruct (Qle_bool u (3 # 4)); [|apply wander_enclosed; exact Hwall].
  destruct (display_get display Hs previous_command Ein) as [tile Et].
  unfold bind at 1, lift at 1; rewrite Et.
  rewrite (Hwall tile (dict_get_value _ _ _ Et)).
  assert (Epref : preferred_directions display = Ok []).
  { unfold preferred_directions; apply filter_res_none.
    intros d Hin.
    destruct (display_get display Hs d Hin) as [t Ht]; rewrite Ht; simpl.
    rewrite (Hwall t (dict_get_value _ _ _ Ht)); reflexivity. }
  unfold bind, lift; rewrite Epref.
  apply wander_enclosed; exact Hwall.
Qed.

Lemma next_command_enclosed_witness :
  next_command (Some "E") (Some walled_in) (world_of [0%N; 4%N]) =
    (Ok "E", step (step (world_of [0%N; 4%N]))) /\
  (pick 8 (step (world_of [0%N; 4%N])) < 8)%nat.
Proof.
  assert (H1 : "E" <> "") by discriminate.
  assert (H2 : is_surroundings walled_in)
    by (apply directions_keys_surroundings; reflexivity).
  assert (H3 : no_tile "food" walled_in)
    by (unfold no_tile; simpl; intuition discriminate).
  assert (H4 : no_tile "dose" walled_in)
    by (unfold no_tile; simpl; intuition discriminate).
  assert (H5 : forall tile, In tile (map snd walled_in) ->
                            walkable tile = false)
    by (simpl; intros tile H;
        repeat (destruct H as [<-|H]; [reflexivity|]); contradiction).
  exact (next_command_enclosed "E" walled_in (world_of [0%N; 4%N])
           H1 H2 H3 H4 H5).
Defined.

(** ** Keys and the classifier at the border *)

(** X6: [key_from_command] raises [KeyError] exactly on the commands that
    are not among the ten actions. *)
Theorem key_from_command_unknown (command : string) :
  key_from_command command = Raise KeyError <-> ~ In command actions.
Proof.
  split.
  - intros H Hin; simpl in Hin.
    repeat (destruct Hin as [<-|Hin]; [vm_compute in H; discriminate H|]).
    exact Hin.
  - intros Hnot.
    unfold key_from_command, dict_get, mapping; cbn [dict_find].
    repeat (match goal with
            | |- context [String.eqb command ?c] =>
                destruct (String.eqb_spec command c) as [->|_];
                [exfalso; apply Hnot; simpl; tauto|]
            end).
    reflexivity.
Qed.

(** X7: on a message whose width and height are integers and whose cells
    are a list of strings, whatever their values, the classifier either
    returns a mapping whose keys are exactly the eight directions and whose
    values are tile kinds, or raises one of [AssertionError],
    [UnboundLocalError] and [IndexError]; looking up the kind of a cell never
    raises. *)
Theorem surroundings_result_shape (m : message) :
  match surroundings_from_message m with
  | Ok d =>
      dict_keys d = directions /\
      Forall (fun tile => In tile tile_kinds) (map snd d)
  | Raise e => In e [AssertionError; UnboundLocalError; IndexError]
  end.
Proof.
  destruct (surroundings_from_message m) as [d|e] eqn:E.
  - apply (surroundings_shape m); exact E.
  - apply (surroundings_raises m); exact E.
Qed.

Lemma py_index_range {A} (seq : list A) (i : Z) (a : A) :
  py_index seq i = Ok a ->
  - Z.of_nat (length seq) <= i < Z.of_nat (length seq).
Proof.
  unfold py_index.
  destruct (i <? 0) eqn:Ei;
    destruct (_ && _) eqn:Eb; try discriminate;
    apply andb_true_iff in Eb; lia.
Qed.

Lemma py_index_some {A} (seq : list A) (i : Z) :
  - Z.of_nat (length seq) <= i < Z.of_nat (length seq) ->
  exists a,
    py_index seq i = Ok a /\
    nth_error seq (Z.to_nat (i mod Z.of_nat (length seq))) = Some a.
Proof.
  intros H; unfold py_index.
  set (n := Z.of_nat (length seq)) in *.
  assert (Hj : i mod n = if i <? 0 then i + n else i).
  { destruct (i <? 0) eqn:Ei.
    - rewrite <- (Z.mod_add i 1 n) by lia.
      rewrite Z.mul_1_l; apply Z.mod_small; lia.
    - apply Z.mod_small; lia. }
  rewrite Hj.
  set (j := if i <? 0 then i + n else i) in *.
  assert (Hr : 0 <= j < n) by (unfold j; destruct (i <? 0) eqn:Ei; lia).
  replace ((0 <=? j) && (j <? n)) with true
    by (symmetry; apply andb_true_iff; split; lia).
  destruct (nth_error seq (Z.to_nat j)) as [a|] eqn:E; [eauto|].
  apply nth_error_None in E; lia.
Qed.

Lemma get_cell_flat (m : message) (x y : Z) (cell : string) :
  get_cell m x y = Ok cell ->
  nth_error (cells m) (flat_position m x y) = Some cell.
Proof.
  unfold get_cell, flat_position; intros H.
  destruct (py_index_some (cells m) (y * width m + x)) as [a [E N]].
  - eapply py_index_range; exact H.
  - rewrite E in H; injection H as <-; exact N.
Qed.

(** With the player inside the grid, the eight lookups succeed exactly when
    the last one, to the south-east, is inside the list. *)
Lemma around_bounds (m : message) (x y : Z) :
  Z.of_nat (length (cells m)) = width m * height m ->
  0 <= x < width m -> 0 <= y < height m ->
  if (y + 1) * width m + x + 1 <? width m * height m
  then exists d, around m x y = Ok d
  else around m x y = Raise IndexError.
Proof.
  intros Hs Hx Hy.
  destruct (Z.ltb_spec ((y + 1) * width m + x + 1) (width m * height m))
    as [Hlt|Hge]; unfold around.
  - repeat (match goal with
            | |- context [rbind (get_cell ?m ?a ?b) _] =>
                let c := fresh "c" in
                let E := fresh "E" in
                destruct (py_index_some (cells m) (b * width m + a))
                  as [c [E _]];
                [nia | unfold get_cell at 1; rewrite E; cbn [rbind]]
            end).
    eauto.
  - repeat (match goal with
            | |- context [rbind (get_cell ?m ?a ?b) _] =>
                let E := fresh "E" in
                destruct (get_cell m a b) eqn:E; cbn [rbind];
                [|apply get_cell_raises in E; subst; reflexivity]
            end).
    exfalso.
    match goal with
    | E : get_cell m (x + 1) (y + 1) = Ok _ |- _ =>
        apply py_index_range in E; nia
    end.
Qed.

(** With a single player cell, the classifier looks around it. *)
Lemma surroundings_single_player (m : message) (x y : Z) :
  Z.of_nat (length (cells m)) = width m * height m ->
  count_players m = 1%nat ->
  0 <= x < width m -> 0 <= y < height m ->
  is_player m x y = true ->
  surroundings_from_message m = around m x y.
Proof.
  intros Hs H1 Hx Hy Hp; unfold surroundings_from_message.
  replace (Z.of_nat (length (cells m)) =? width m * height m) with true
    by (symmetry; apply Z.eqb_eq; exact Hs).
  cbn [negb].
  rewrite (find_player_last m Hs x y Hx Hy Hp); [reflexivity|].
  intros x' y' Hx' Hy' Hp'.
  destruct (one_player_position m x y x' y') as [-> ->];
    try assumption; lia.
Qed.

(** X8: on a snapshot of the right size with a single player cell, at
    column [x] and row [y], the classifier returns a mapping exactly when the
    south-east neighbour's index [(y + 1) * width + x + 1] is inside the list
    of cells, and raises [IndexError] otherwise: it fails for a player in the
    last row, or in the last column of the row before, and for no other
    position, borders included. *)
Theorem surroundings_near_border (m : message) (x y : Z) :
  Z.of_nat (length (cells m)) = width m * height m ->
  count_players m = 1%nat ->
  0 <= x < width m -> 0 <= y < height m ->
  is_player m x y = true ->
  if (y + 1) * width m + x + 1 <? width m * height m
  then exists d, surroundings_from_message m = Ok d
  else surroundings_from_message m = Raise IndexError.
Proof.
  intros Hs H1 Hx Hy Hp.
  rewrite (surroundings_single_player m x y Hs H1 Hx Hy Hp).
  apply around_bounds; assumption.
Qed.

Lemma surroundings_near_border_witness :
  surroundings_from_message bottom_player = Raise IndexError.
Proof.
  apply (surroundings_near_border bottom_player 1 2);
    first [reflexivity | simpl; lia].
Defined.

Example left_edge_is_classified :
  surroundings_from_message left_edge_player =
    Ok [ ("NW", "wall"); ("N", "wall"); ("NE", "empty");
         ("W", "food"); ("E", "empty");
         ("SW", "dose"); ("S", "empty"); ("SE", "monster") ].
Proof. reflexivity. Qed.

(** X9: the neighbours are read from the flat list of cells with Python's
    indexing, without regard for the borders of the grid: when [around]
    returns, the tile of each direction is the kind of the cell at position
    [((y + dy) * width + (x + dx)) mod len(cells)].  So the western
    neighbours of a player in the first column are the last cells of the rows
    above, and the northern neighbours of a player in the first row are cells
    of the last row. *)
Theorem around_wraps (m : message) (x y : Z) (d : dict string) :
  around m x y = Ok d ->
  Forall (fun offset =>
            exists cell,
              nth_error (cells m)
                (flat_position m (x + fst (snd offset))
                   (y + snd (snd offset))) = Some cell /\
              dict_get d (fst offset) = Ok (cell_type cell))
         offsets.
Proof.
  unfold around.
  repeat (match goal with
          | |- context [rbind (get_cell ?m ?a ?b) _] =>
              let c := fresh "c" in
              let E := fresh "E" in
              destruct (get_cell m a b) as [c|] eqn:E; cbn [rbind];
              [apply get_cell_flat in E|discriminate]
          end).
  intros [= <-]; unfold offsets.
  repeat (apply Forall_cons;
          [cbn [fst snd]; rewrite ?Z.add_0_r;
           eexists; split; [eassumption | reflexivity]|]).
  apply Forall_nil.
Qed.

Lemma around_wraps_witness :
  Forall (fun offset =>
            exists cell,
              nth_error (cells left_edge_player)
                (flat_position left_edge_player (0 + fst (snd offset))
                   (1 + snd (snd offset))) = Some cell /\
              dict_get
                [ ("NW", "wall"); ("N", "wall"); ("NE", "empty");
                  ("W", "food"); ("E", "empty");
                  ("SW", "dose"); ("S", "empty"); ("SE", "monster") ]
                (fst offset) = Ok (cell_type cell))
         offsets.
Proof.
  apply (around_wraps left_edge_player 0 1); reflexivity.
Defined.

(** ** Length and end of a session *)

(** The keys that [run_game] sends. *)
Lemma run_game_sent (net : socket_env) (w : world) :
  exists r w' cs ks (quit : bool),
    run_game net w = (r, w') /\
    sent (log w') =
      (sent (log w) ++ ks ++ if quit then [key_from_code "Q"] else [])%list /\
    Forall2 (fun c k => In c directions /\ key_from_command c = Ok k) cs ks /\
    Z.of_nat (length ks) <= 210 + Z.of_nat (pick 191 w).
Proof.
  destruct (run_game_trace net w) as [r [events [w' [E [Ht Hlog]]]]].
  destruct (session_trace_sent _ _ _ _ _ Ht)
    as [cs [ks [quit [Hf [Hs [_ Hn]]]]]].
  exists r, w', cs, ks, quit.
  split; [exact E|]; split; [|split; [exact Hf|]].
  - rewrite Hlog, !sent_app, Hs.
    replace (sent session_opening) with (@nil key) by reflexivity.
    replace (sent (match r with Ok _ => session_closing | Raise _ => [] end))
      with (@nil key) by (destruct r; reflexivity).
    rewrite app_nil_r; reflexivity.
  - destruct ks as [|k ks]; [cbn [length]; lia|].
    assert (k :: ks <> []) as Hne by discriminate.
    specialize (Hn Hne); lia.
Qed.

(** X10: a session sends at most [max_turns + 1] keys, hence at most 401,
    whatever the game answers. *)
Theorem session_sends_bounded (net : socket_env) (w : world) :
  let w' := snd (run_game net w) in
  let max_turns := 210 + Z.of_nat (pick 191 w) in
  Z.of_nat (length (sent (log w'))) <=
    Z.of_nat (length (sent (log w))) + max_turns + 1 /\
  max_turns + 1 <= 401.
Proof.
  intros w' max_turns; unfold w', max_turns.
  assert (Hp : (pick 191 w < 191)%nat) by (apply pick_below; discriminate).
  destruct (run_game_sent net w) as [r [w1 [cs [ks [quit [E [Hs [_ Hk]]]]]]]].
  rewrite E; cbn [snd]; rewrite Hs, !length_app.
  revert Hp Hk; generalize (pick 191 w); intros p Hp Hk.
  split; [|lia].
  destruct quit; cbn [length]; lia.
Qed.

(** A session with a cooperative game runs all its turns and ends with
    Quit. *)
Lemma session_trace_full (net : socket_env) (max_turns turns : Z)
    (events : list event) (r : result unit) :
  session_trace net max_turns turns events r ->
  cooperative net max_turns ->
  0 <= turns <= max_turns ->
  r = Ok tt /\
  exists cs ks,
    Forall2 (fun c k => In c directions /\ key_from_command c = Ok k) cs ks /\
    sent events = (ks ++ [key_from_code "Q"])%list /\
    Z.of_nat (length ks) = max_turns - turns.
Proof.
  intros Ht [Hw Hr].
  induction Ht as [t Hlim Hwt | t Hwt | t c k Hlim Hc Hk Hwt Hrt
                   | t c k reply e Hlim Hc Hk Hwt Hrt He
                   | t c k reply d rest r Hlim Hc Hk Hwt Hrt Hd Hrest IH];
    intros Hturns.
  - split; [reflexivity|].
    exists [], []; split; [constructor|]; split; [reflexivity|].
    cbn [length]; lia.
  - rewrite Hw in Hwt by lia; discriminate.
  - destruct (Hr (t + 1)) as [reply [d [E _]]]; [lia|]; congruence.
  - destruct (Hr (t + 1)) as [reply' [d [E Ed]]]; [lia|]; congruence.
  - destruct (Z.eq_dec t max_turns) as [->|Hne]; [lia|].
    destruct IH as [-> [cs [ks [Hf [Hs Hlen]]]]]; [lia|].
    split; [reflexivity|].
    exists (c :: cs), (k :: ks); split; [|split].
    + constructor; [split; assumption | exact Hf].
    + cbn [sent]; rewrite Hs; reflexivity.
    + cbn [length]; lia.
Qed.

(** X11: when the socket stays writable and every reply classifies, the
    session runs to its end: [run_game] returns normally, having sent exactly
    [max_turns] keys of directions followed by the key of Quit, and closes the
    connection last. *)
Theorem cooperative_session_runs_all_turns (net : socket_env) (w : world) :
  cooperative net (210 + Z.of_nat (pick 191 w)) ->
  exists w' cs ks before,
    run_game net w = (Ok tt, w') /\
    sent (log w') = (sent (log w) ++ ks ++ [key_from_code "Q"])%list /\
    Forall2 (fun c k => In c directions /\ key_from_command c = Ok k) cs ks /\
    Z.of_nat (length ks) = 210 + Z.of_nat (pick 191 w) /\
    log w' = (before ++ session_closing)%list.
Proof.
  intros Hcoop.
  destruct (run_game_trace net w) as [r [events [w' [E [Ht Hlog]]]]].
  destruct (session_trace_full _ _ _ _ _ Ht Hcoop)
    as [-> [cs [ks [Hf [Hs Hlen]]]]]; [lia|].
  exists w', cs, ks, (log w ++ session_opening ++ events)%list.
  split; [exact E|]; split; [|split; [exact Hf|split; [lia|]]].
  - rewrite Hlog, !sent_app, Hs.
    replace (sent session_opening) with (@nil key) by reflexivity.
    replace (sent session_closing) with (@nil key) by reflexivity.
    rewrite app_nil_r; reflexivity.
  - rewrite Hlog, <- !app_assoc; reflexivity.
Qed.

Lemma cooperative_session_runs_all_turns_witness :
  exists w' cs ks before,
    run_game steady_net (world_of []) = (Ok tt, w') /\
    sent (log w') =
      (sent (log (world_of [])) ++ ks ++ [key_from_code "Q"])%list /\
    Forall2 (fun c k => In c directions /\ key_from_command c = Ok k) cs ks /\
    Z.of_nat (length ks) = 210 + Z.of_nat (pick 191 (world_of [])) /\
    log w' = (before ++ session_closing)%list.
Proof.
  apply (cooperative_session_runs_all_turns steady_net (world_of [])).
  split.
  - intros t _; reflexivity.
  - intros t _; exists one_player, food_north; split; reflexivity.
Defined.

(** A reply on which the classifier raises ends the session with that
    exception, provided the session gets that far. *)
Lemma session_trace_bad_reply (net : socket_env) (max_turns turns : Z)
    (events : list event) (r : result unit) (t : Z) (reply : message)
    (e : exn) :
  session_trace net max_turns turns events r ->
  turns < t <= max_turns ->
  (forall s, turns < s <= t -> writable net s = true) ->
  (forall s, turns < s < t ->
     exists reply' d,
       readable net s = Some reply' /\
       surroundings_from_message reply' = Ok d) ->
  readable net t = Some reply ->
  surroundings_from_message reply = Raise e ->
  r = Raise e.
Proof.
  intros Ht; revert t.
  induction Ht as [u Hlim Hwt | u Hwt | u c k Hlim Hc Hk Hwt Hrt
                   | u c k reply0 e0 Hlim Hc Hk Hwt Hrt He
                   | u c k reply0 d rest r Hlim Hc Hk Hwt Hrt Hd Hrest IH];
    intros t Hturn Hw Hr Hreply Hraise.
  - lia.
  - rewrite Hw in Hwt by lia; discriminate.
  - destruct (Z.eq_dec (u + 1) t) as [<-|Hne]; [congruence|].
    destruct (Hr (u + 1)) as [reply' [d [E _]]]; [lia | congruence].
  - destruct (Z.eq_dec (u + 1) t) as [<-|Hne]; [congruence|].
    destruct (Hr (u + 1)) as [reply' [d [E Ed]]]; [lia | congruence].
  - destruct (Z.eq_dec (u + 1) t) as [<-|Hne]; [congruence|].
    apply (IH t); try assumption; try lia.
    + intros s Hs; apply Hw; lia.
    + intros s Hs; apply Hr; lia.
Qed.

(** X12: [run_game] closes the socket and terminates the context exactly
    when it returns normally.  When the classifier raises on the reply of a
    turn that the session reaches (the socket writable up to it, the earlier
    replies classified), [run_game] raises that exception, and then neither
    [socket.close()] nor [context.term()] is performed. *)
Theorem connection_closed_on_return_only (net : socket_env) (w : world) :
  (exists events,
     log (snd (run_game net w)) = (log w ++ events)%list /\
     match fst (run_game net w) with
     | Ok _ => exists before, events = (before ++ session_closing)%list
     | Raise _ => ~ In SocketClose events /\ ~ In ContextTerm events
     end) /\
  (forall (t : Z) (reply : message) (e : exn),
     1 <= t <= 210 + Z.of_nat (pick 191 w) ->
     (forall s, 1 <= s <= t -> writable net s = true) ->
     (forall s, 1 <= s < t ->
        exists reply' d,
          readable net s = Some reply' /\
          surroundings_from_message reply' = Ok d) ->
     readable net t = Some reply ->
     surroundings_from_message reply = Raise e ->
     fst (run_game net w) = Raise e).
Proof.
  destruct (run_game_trace net w) as [r [events [w' [E [Ht Hlog]]]]].
  rewrite E; cbn [fst snd]; split.
  - eexists; split; [exact Hlog|].
    destruct r as [[]|e].
    + exists (session_opening ++ events)%list.
      rewrite <- app_assoc; reflexivity.
    + apply session_trace_events in Ht; rewrite Forall_forall in Ht.
      rewrite app_nil_r.
      split; intros H; apply in_app_or in H; destruct H as [H|H];
        first [exact (Ht _ H)
              | simpl in H; intuition discriminate].
  - intros t reply e Hturn Hw Hr Hreply Hraise.
    apply (session_trace_bad_reply _ _ _ _ _ t reply e Ht);
      try assumption; try lia.
    + intros s Hs; apply Hw; lia.
    + intros s Hs; apply Hr; lia.
Qed.

Lemma connection_closed_on_return_only_witness :
  fst (run_game (net headless_game) (world_of [])) = Raise UnboundLocalError.
Proof.
  apply (proj2 (connection_closed_on_return_only (net headless_game)
                  (world_of [])) 1 no_player UnboundLocalError).
  - vm_compute; split; discriminate.
  - intros s _; reflexivity.
  - intros s Hs; lia.
  - reflexivity.
  - reflexivity.
Defined.

(** ** Resources of a trial *)

(** X13: the temporary trace file is deleted exactly once when the trial
    ends in SUCCESS or FAILURE and never otherwise, and no other file is ever
    deleted; since the file is created as soon as the build has succeeded, a
    trial that is UNEXPECTED after the build, or that raises, leaves it
    behind. *)
Theorem trace_file_deleted_after_replay_only (env : trial_env) (w : world) :
  exists events,
    log (snd (test_run env w)) = (log w ++ events)%list /\
    unlinked events =
      (if replayed (fst (test_run env w)) then [replay_file_name env]
       else []) /\
    (cargo_found env = true -> build_rc env = 0 ->
     In (TempFile (replay_file_name env)) events).
Proof.
  destruct (test_run_trace env w) as [r [events [w' [E [Hlog Ht]]]]].
  rewrite E; cbn [fst snd]; exists events; split; [exact Hlog|].
  inversion Ht as [Hc | Hc Hb | rc Hc Hb Hp | session e Hc Hb Hp Hs
                   | session Hc Hb Hp Hs Hg | session Hc Hb Hp Hs Hg];
    subst; clear Ht; (split; [|intros Hc' Hb'; try congruence]).
  - reflexivity.
  - reflexivity.
  - reflexivity.
  - do 2 right; left; reflexivity.
  - unfold unlinked; rewrite collect_app.
    fold unlinked; rewrite (unlinked_session _ _ _ _ _ Hs); reflexivity.
  - rewrite in_app_iff; left; do 2 right; left; reflexivity.
  - unfold unlinked; rewrite !collect_app.
    fold unlinked; rewrite (unlinked_session _ _ _ _ _ Hs).
    trial_parts env.
  - rewrite in_app_iff; left; do 2 right; left; reflexivity.
  - unfold unlinked; rewrite !collect_app.
    fold unlinked; rewrite (unlinked_session _ _ _ _ _ Hs).
    trial_parts env.
  - rewrite in_app_iff; left; do 2 right; left; reflexivity.
Qed.

Lemma launched_app (l1 l2 : list event) :
  launched (l1 ++ l2) = (launched l1 ++ launched l2)%list.
Proof. apply collect_app. Qed.

Lemma killed_app (l1 l2 : list event) :
  killed (l1 ++ l2) = (killed l1 ++ killed l2)%list.
Proof. apply collect_app. Qed.

(** X14: a trial starts the game at most once and the replay at most once:
    nothing is started when cargo is missing or the build fails; otherwise
    the game is started in record mode, and the replay, if at all, after it.
    The replay has been started whenever the trial returns SUCCESS or
    FAILURE, and never when it returns UNEXPECTED. *)
Theorem processes_of_a_trial (env : trial_env) (w : world) :
  exists events replay_part,
    log (snd (test_run env w)) = (log w ++ events)%list /\
    launched events =
      (if cargo_found env && (build_rc env =? 0)
       then game_command (replay_file_name env) :: replay_part
       else []) /\
    (replay_part = [] \/
     replay_part = [replay_command (replay_file_name env)]) /\
    (replayed (fst (test_run env w)) = true ->
     replay_part = [replay_command (replay_file_name env)]) /\
    (fst (test_run env w) = Ok "UNEXPECTED" -> replay_part = []).
Proof.
  destruct (test_run_trace env w) as [r [events [w' [E [Hlog Ht]]]]].
  rewrite E; cbn [fst snd]; exists events.
  inversion Ht as [Hc | Hc Hb | rc Hc Hb Hp | session e Hc Hb Hp Hs
                   | session Hc Hb Hp Hs Hg | session Hc Hb Hp Hs Hg];
    subst; clear Ht; rewrite Hc; cbn [andb];
    try (rewrite Hb; cbn [Z.eqb]).
  - exists []; split; [exact Hlog|]; split; [reflexivity|].
    split; [left; reflexivity|]; split; [discriminate | reflexivity].
  - replace (build_rc env =? 0) with false
      by (symmetry; apply Z.eqb_neq; exact Hb).
    exists []; split; [exact Hlog|]; split; [reflexivity|].
    split; [left; reflexivity|]; split; [discriminate | reflexivity].
  - exists []; split; [exact Hlog|]; split; [reflexivity|].
    split; [left; reflexivity|]; split; [discriminate | reflexivity].
  - exists []; split; [exact Hlog|]; split.
    + rewrite launched_app, (launched_session _ _ _ _ _ Hs); reflexivity.
    + split; [left; reflexivity|]; split; [discriminate | reflexivity].
  - exists []; split; [exact Hlog|]; split.
    + rewrite !launched_app, (launched_session _ _ _ _ _ Hs).
      clear; trial_parts env.
    + split; [left; reflexivity|]; split; [discriminate | reflexivity].
  - exists [replay_command (replay_file_name env)].
    split; [exact Hlog|]; split.
    + rewrite !launched_app, (launched_session _ _ _ _ _ Hs).
      clear; trial_parts env.
    + split; [right; reflexivity|]; split; [reflexivity|].
      clear; trial_parts env.
Qed.

Lemma processes_of_a_trial_witness :
  exists events,
    log (snd (test_run silent_game (world_of [0%N; 0%N]))) =
      (log (world_of [0%N; 0%N]) ++ events)%list /\
    launched events =
      [game_command (replay_file_name silent_game);
       replay_command (replay_file_name silent_game)].
Proof.
  destruct (processes_of_a_trial silent_game (world_of [0%N; 0%N]))
    as [events [part [H1 [H2 [_ [H3 _]]]]]].
  exists events; split; [exact H1|].
  rewrite H2, H3; [reflexivity | vm_compute; reflexivity].
Defined.

(** X15: the recorded game is killed at most once, and only when it is
    found still running one second after the session; a trial that starts
    the replay has killed the game before exactly in that case, and a trial
    that returns UNEXPECTED has killed nothing. *)
Theorem game_killed_when_still_running (env : trial_env) (w : world) :
  exists events,
    log (snd (test_run env w)) = (log w ++ events)%list /\
    (killed events = [] \/ killed events = [tt]) /\
    (killed events = [tt] -> game_poll_late env = None) /\
    (In (replay_command (replay_file_name env)) (launched events) ->
     killed events =
       match game_poll_late env with None => [tt] | Some _ => [] end) /\
    (fst (test_run env w) = Ok "UNEXPECTED" -> killed events = []).
Proof.
  destruct (test_run_trace env w) as [r [events [w' [E [Hlog Ht]]]]].
  rewrite E; cbn [fst snd]; exists events; split; [exact Hlog|].
  assert (Hno : ~ In (replay_command (replay_file_name env))
                    [game_command (replay_file_name env)])
    by (intros [H|[]]; discriminate H).
  inversion Ht as [Hc | Hc Hb | rc Hc Hb Hp | session e Hc Hb Hp Hs
                   | session Hc Hb Hp Hs Hg | session Hc Hb Hp Hs Hg];
    subst; clear Ht.
  - cbn; intuition (try discriminate).
  - cbn; intuition (try discriminate).
  - cbn; intuition (try discriminate).
  - rewrite killed_app, launched_app,
      (killed_session _ _ _ _ _ Hs), (launched_session _ _ _ _ _ Hs).
    cbn; intuition (try discriminate).
  - rewrite !killed_app, !launched_app,
      (killed_session _ _ _ _ _ Hs), (launched_session _ _ _ _ _ Hs).
    clear Hlog Hs E; trial_parts env;
      cbn; intuition (try discriminate).
  - rewrite !killed_app, !launched_app,
      (killed_session _ _ _ _ _ Hs), (launched_session _ _ _ _ _ Hs).
    clear Hlog Hs E; trial_parts env;
      cbn; intuition (try discriminate).
Qed.

Lemma game_killed_when_still_running_witness :
  exists events,
    log (snd (test_run unarchived_game (world_of [0%N; 0%N; 0%N]))) =
      (log (world_of [0%N; 0%N; 0%N]) ++ events)%list /\
    killed events = [tt].
Proof.
  destruct (game_killed_when_still_running unarchived_game
              (world_of [0%N; 0%N; 0%N]))
    as [events [H1 [_ [_ [H3 _]]]]].
  exists events; split; [exact H1|].
  apply H3.
  assert (E : events =
              log (snd (test_run unarchived_game (world_of [0%N; 0%N; 0%N]))))
    by (rewrite H1; reflexivity).
  rewrite E; vm_compute; tauto.
Defined.

(** X17: a trial whose build fails, or whose game has already exited when
    first polled, is UNEXPECTED without any session: no random number is
    drawn, no connection is opened and no key is sent. *)
Theorem trial_without_session (env : trial_env) (w : world) :
  cargo_found env = true ->
  build_rc env <> 0 \/ game_poll_early env <> None ->
  exists events,
    test_run env w = (Ok "UNEXPECTED", after w events) /\
    sent events = [] /\
    Forall (fun e => forall endpoint, e <> Connect endpoint) events.
Proof.
  intros Hc H; rewrite test_run_spec, Hc.
  destruct (build_rc env =? 0) eqn:Eb.
  - apply Z.eqb_eq in Eb.
    destruct H as [H|H]; [congruence|].
    destruct (game_poll_early env) as [rc|]; [|congruence].
    eexists; split; [reflexivity|]; split; [reflexivity|].
    cbn [app build_events launch_events premature_events].
    repeat (apply Forall_cons; [intros endpoint; discriminate|]).
    apply Forall_nil.
  - eexists; split; [reflexivity|]; split; [reflexivity|].
    cbn [app build_events].
    repeat (apply Forall_cons; [intros endpoint; discriminate|]).
    apply Forall_nil.
Qed.

Lemma trial_without_session_witness :
  exists events,
    test_run crashed_game (world_of []) =
      (Ok "UNEXPECTED", after (world_of []) events) /\
    sent events = [] /\
    Forall (fun e => forall endpoint, e <> Connect endpoint) events.
Proof.
  apply (trial_without_session crashed_game (world_of []));
    [reflexivity | right; discriminate].
Defined.

Example headless_trial_raises :
  fst (test_run headless_game (world_of [])) = Raise UnboundLocalError /\
  unlinked (log (snd (test_run headless_game (world_of [])))) = [] /\
  killed (log (snd (test_run headless_game (world_of [])))) = [].
Proof. vm_compute; repeat split. Qed.

(** ** The tally of a batch *)

Lemma started_verdict (env : batch_env) (i : Z) (w : world) :
  match fst (started env i w) with
  | Ok verdict => In verdict ["SUCCESS"; "FAILURE"; "UNEXPECTED"]
  | Raise _ => True
  end.
Proof.
  unfold started, bind; rewrite emit_after.
  destruct (sigint env i); [exact I|].
  pose proof (test_run_verdict (trial env i)
                (after w [Print ("Running test number "
                                 ++ str_of_int (i + 1))])) as H.
  destruct (test_run (trial env i) _) as [[v|e] w2]; cbn [fst] in *; [|exact I].
  destruct H as [H|[e H]]; [|discriminate].
  simpl in H; simpl.
  repeat (destruct H as [H|H]; [injection H as <-; tauto|]); contradiction.
Qed.

Lemma outcomes_counted (env : batch_env) (indices : list Z) :
  forall w,
    (count_verdict "SUCCESS" (outcomes env indices w)
     + count_verdict "FAILURE" (outcomes env indices w)
     + count_verdict "UNEXPECTED" (outcomes env indices w))%nat
    = completed (outcomes env indices w).
Proof.
  induction indices as [|i rest IH]; intros w; [reflexivity|].
  cbn [outcomes].
  pose proof (started_verdict env i w) as Hv.
  destruct (started env i w) as [[v|e] w2]; cbn [fst] in Hv; [|reflexivity].
  specialize (IH w2); revert IH.
  unfold count_verdict, completed; cbn [filter].
  simpl in Hv; destruct Hv as [<-|[<-|[<-|[]]]]; cbn; lia.
Qed.

(** The batch loop adds to each counter the number of trials that returned
    its verdict. *)
Lemma run_tests_tally (env : batch_env) (indices : list Z) :
  forall (s f u : Z) (last : option Z) (w : world),
    exists r s' f' u' last' w',
      run_tests env indices
        [("SUCCESS", s); ("FAILURE", f); ("UNEXPECTED", u)] last w =
        (r, [("SUCCESS", s'); ("FAILURE", f'); ("UNEXPECTED", u')],
         last', w') /\
      s' = s + Z.of_nat (count_verdict "SUCCESS" (outcomes env indices w)) /\
      f' = f + Z.of_nat (count_verdict "FAILURE" (outcomes env indices w)) /\
      u' = u + Z.of_nat (count_verdict "UNEXPECTED" (outcomes env indices w)).
Proof.
  induction indices as [|i rest IH]; intros s f u last w.
  - exists (Ok tt), s, f, u, last, w.
    split; [reflexivity|]; cbn; lia.
  - rewrite run_tests_cons; cbn [outcomes].
    pose proof (started_verdict env i w) as Hv.
    destruct (started env i w) as [[v|e] w2]; cbn [fst] in Hv.
    2:{ exists (Raise e), s, f, u, (Some i), w2.
        split; [reflexivity|]; cbn; lia. }
    assert (Hstep : forall s1 f1 u1 (a b c : nat),
              count_verdict "SUCCESS" (Ok v :: outcomes env rest w2) =
                (a + count_verdict "SUCCESS" (outcomes env rest w2))%nat ->
              count_verdict "FAILURE" (Ok v :: outcomes env rest w2) =
                (b + count_verdict "FAILURE" (outcomes env rest w2))%nat ->
              count_verdict "UNEXPECTED" (Ok v :: outcomes env rest w2) =
                (c + count_verdict "UNEXPECTED" (outcomes env rest w2))%nat ->
              s1 = s + Z.of_nat a -> f1 = f + Z.of_nat b ->
              u1 = u + Z.of_nat c ->
              exists r s' f' u' last' w',
                run_tests env rest
                  [("SUCCESS", s1); ("FAILURE", f1); ("UNEXPECTED", u1)]
                  (Some i) w2 =
                  (r, [("SUCCESS", s'); ("FAILURE", f'); ("UNEXPECTED", u')],
                   last', w') /\
                s' = s + Z.of_nat (count_verdict "SUCCESS"
                                     (Ok v :: outcomes env rest w2)) /\
                f' = f + Z.of_nat (count_verdict "FAILURE"
                                     (Ok v :: outcomes env rest w2)) /\
                u' = u + Z.of_nat (count_verdict "UNEXPECTED"
                                     (Ok v :: outcomes env rest w2))).
    { intros s1 f1 u1 a b c Ea Eb Ec -> -> ->.
      destruct (IH (s + Z.of_nat a) (f + Z.of_nat b) (u + Z.of_nat c)
                  (Some i) w2)
        as [r [s' [f' [u' [last' [w' [E [Hs [Hf Hu]]]]]]]]].
      exists r, s', f', u', last', w'.
      split; [exact E|]; rewrite Ea, Eb, Ec; lia. }
    simpl in Hv; destruct Hv as [<-|[<-|[<-|[]]]].
    + apply (Hstep (s + 1) f u 1%nat 0%nat 0%nat);
        first [reflexivity | lia].
    + apply (Hstep s (f + 1) u 0%nat 1%nat 0%nat);
        first [reflexivity | lia].
    + apply (Hstep s f (u + 1) 0%nat 0%nat 1%nat);
        first [reflexivity | lia].
Qed.

(** X18: at the end of the batch loop the three counters hold the numbers
    of trials that returned SUCCESS, FAILURE and UNEXPECTED, and they add up
    to the number of trials that returned: every completed trial is counted
    once, under its own verdict. *)
Theorem tally_counts_every_trial (env : batch_env) (indices : list Z)
    (w : world) :
  let outs := outcomes env indices w in
  (exists r last w',
     run_tests env indices
       [("SUCCESS", 0); ("FAILURE", 0); ("UNEXPECTED", 0)] None w =
       (r, tally outs, last, w')) /\
  (count_verdict "SUCCESS" outs + count_verdict "FAILURE" outs
   + count_verdict "UNEXPECTED" outs)%nat = completed outs /\
  (completed outs <= length indices)%nat.
Proof.
  intros outs; split; [|split].
  - destruct (run_tests_tally env indices 0 0 0 None w)
      as [r [s' [f' [u' [last' [w' [E [-> [-> ->]]]]]]]]].
    exists r, last', w'; rewrite E; reflexivity.
  - apply outcomes_counted.
  - destruct (run_tests_spec env indices 0 0 0 None w)
      as [r [f' [u' [last' [w' [_ Hr]]]]]].
    fold outs in Hr.
    assert (completed outs <= length outs)%nat
      by apply filter_length_le.
    destruct r; destruct Hr; lia.
Qed.

(** X19: when no trial raises anything but [KeyboardInterrupt], that is when
    the batch runs to its end or is interrupted, the last line the script
    prints is the tally of the trials that returned. *)
Theorem tally_is_reported (test_count : Z) (env : batch_env) (w : world) :
  let outs := outcomes env (range test_count) w in
  (forall e, In (Raise e) outs -> e = KeyboardInterrupt) ->
  exists before,
    log (snd (main test_count env w)) =
      (before ++ [Print ("Results:" ++ nl ++ show_results (tally outs))])%list.
Proof.
  intros outs Hint.
  destruct (run_tests_tally env (range test_count) 0 0 0 None w)
    as [r [s' [f' [u' [last' [w' [E [Hs [Hf Hu]]]]]]]]].
  destruct (run_tests_spec env (range test_count) 0 0 0 None w)
    as [r2 [f2 [u2 [last2 [w2 [E2 Hr]]]]]].
  rewrite E in E2; injection E2 as <- _ _ _ _ _.
  fold outs in Hs, Hf, Hu, Hr.
  cbn [Z.add] in Hs, Hf, Hu; subst s' f' u'.
  fold (tally outs) in E.
  unfold main; rewrite E.
  destruct r as [[]|e].
  - unfold bind; rewrite !emit_after; unfold lift, ret.
    cbn [tally dict_get dict_find String.eqb Ascii.eqb Bool.eqb andb].
    eexists; cbn [snd log after]; reflexivity.
  - destruct Hr as [Hin _]; rewrite (Hint e Hin).
    unfold bind; rewrite !emit_after; unfold lift, ret.
    cbn [tally dict_get dict_find String.eqb Ascii.eqb Bool.eqb andb].
    eexists; cbn [snd log after]; reflexivity.
Qed.

Lemma tally_is_reported_witness :
  exists before,
    log (snd (main 5 interrupted_batch (world_of []))) =
      (before
       ++ [Print ("Results:" ++ nl
                  ++ show_results
                       (tally (outcomes interrupted_batch (range 5)
                                 (world_of []))))])%list.
Proof.
  apply (tally_is_reported 5 interrupted_batch (world_of [])).
  intros e H; vm_compute in H.
  destruct H as [H|[H|[]]]; [discriminate H | congruence].
Defined.

Example interrupted_tally :
  tally (outcomes interrupted_batch (range 5) (world_of [])) =
    [("SUCCESS", 1); ("FAILURE", 0); ("UNEXPECTED", 0)].
Proof. vm_compute; reflexivity. Qed.

Lemma trace_file_deleted_after_replay_only_witness :
  exists events,
    log (snd (test_run crashed_game (world_of []))) =
      (log (world_of []) ++ events)%list /\
    unlinked events = [] /\
    In (TempFile (replay_file_name crashed_game)) events.
Proof.
  destruct (trace_file_deleted_after_replay_only crashed_game (world_of []))
    as [events [H1 [H2 H3]]].
  exists events; split; [exact H1|]; split; [exact H2|].
  apply H3; reflexivity.
Defined.
